(** * laytr.kfeat: k-mer featurization of reference regions

    Shallow embedding of [src/laytr/kfeat.py] and the properties of
    its k-mer encoder ([kmer_index]), region featurizer ([kfeat],
    [kfeats]), sequence resolver ([get_features]) and parallel
    orchestrator ([regions_to_kmers]).

    Conventions of the embedding:
    - a Python [str] is a [list ascii]; a Python [int] is a [Z];
    - a raised exception is the [Raise] branch of [result];
    - a numpy [float64] is a primitive binary64 [float], whose
      operations are specified by the library ([SpecFloat]); the real
      number an entry stands for is [float_value];
    - the memory of the process is a parameter, [mem]: the number of
      [float64] entries that [np.zeros] can still allocate. It is
      consulted where the size of an array is decided by [k] alone;
      the other arrays hold data the process already has;
    - [multiprocessing.Pool.map] is modelled with an explicit delivery
      schedule of its task batches (see [Pool]). *)

From Stdlib Require Import ZArith List Ascii String Lia Uint63 Floats.
From Stdlib Require Import Rbase Rbasic_fun Rfunctions Lra.
From Stdlib Require Import Permutation.
From Stdlib Require Import DecimalString DecimalZ DecimalN DecimalPos DecimalFacts.
From stdpp Require Import base list.
Import ListNotations.

Local Open Scope Z_scope.
Set Warnings "-register-all".

(** ** Python values and exceptions *)

Abbreviation str := (list ascii).

(** A string literal as a Python [str]. *)
Definition py (s : string) : str := list_ascii_of_string s.

(** The exceptions the module can raise or let through. *)
Inductive exn : Type :=
| KeyError (key : str)
| IndexError
| TypeError
| ValueError
| OSError
| RecursionError
| MemoryError.

Inductive result (A : Type) : Type :=
| Ok (a : A)
| Raise (e : exn).
Arguments Ok {A} a.
Arguments Raise {A} e.

Definition bind {A B} (r : result A) (f : A -> result B) : result B :=
  match r with
  | Ok a => f a
  | Raise e => Raise e
  end.

Notation "x <- r ;; k" := (bind r (fun x => k))
  (at level 60, r at next level, right associativity).

(** [[f(x) for x in xs]]: elements are evaluated left to right and the
    first exception ends the comprehension. *)
Fixpoint map_result {A B} (f : A -> result B) (xs : list A) : result (list B) :=
  match xs with
  | [] => Ok []
  | x :: rest =>
      y <- f x ;;
      ys <- map_result f rest ;;
      Ok (y :: ys)
  end.

(** [range(n)] for a Python int [n]: empty when [n <= 0]. *)
Definition range (n : Z) : list Z := map Z.of_nat (seq 0 (Z.to_nat n)).

(** [s[i:j]] for [0 <= i]: the characters at positions [i .. j-1] that
    exist (empty when [j <= i]). Negative bounds, which Python counts
    from the end, do not occur in this module. *)
Definition slice (s : str) (i j : Z) : str :=
  firstn (Z.to_nat (j - i)) (skipn (Z.to_nat i) s).

(** ** K-mer encoder *)

(** [NUCS = {'A':0, 'G':1, 'C':2, 'T':3}] *)
Definition NUCS : list (ascii * Z) :=
  [("A"%char, 0); ("G"%char, 1); ("C"%char, 2); ("T"%char, 3)].

(** [d[key]] on a dict literal: [None] stands for the missing key. *)
Fixpoint dict_get (d : list (ascii * Z)) (key : ascii) : option Z :=
  match d with
  | [] => None
  | (k, v) :: rest => if Ascii.eqb k key then Some v else dict_get rest key
  end.

(** The loop of [kmer_index]: [pos] and [index] are the loop state,
    [kmer] the characters still to enumerate. *)
Fixpoint kmer_index_loop (kmer : str) (pos index : Z) : result Z :=
  match kmer with
  | [] => Ok index
  | nuc :: rest =>
      match dict_get NUCS nuc with
      | None => Raise (KeyError [nuc])
      | Some code => kmer_index_loop rest (pos + 1) (index + Z.shiftl code (pos * 2))
      end
  end.

Definition kmer_index (kmer : str) : result Z := kmer_index_loop kmer 0 0.

(** The four canonical nucleotides. *)
Definition is_nuc (c : ascii) : bool :=
  existsb (Ascii.eqb c) ["A"; "G"; "C"; "T"]%char.

Definition nucleotides (s : str) : Prop := Forall (fun c => is_nuc c = true) s.

(** The code of a character; [0] is only a placeholder outside the
    alphabet, where [kmer_index] raises. *)
Definition code (c : ascii) : Z :=
  match dict_get NUCS c with
  | Some v => v
  | None => 0
  end.

(** [sigma pos cs] is the sum of [c * 4^p] over the codes [cs],
    [p] counting up from [pos]. *)
Fixpoint sigma (pos : Z) (cs : list Z) : Z :=
  match cs with
  | [] => 0
  | c :: rest => c * 4 ^ pos + sigma (pos + 1) rest
  end.

(** All strings of length [k] over the alphabet. *)
Fixpoint all_kmers (k : nat) : list str :=
  match k with
  | O => [[]]
  | S k' => flat_map (fun rest => map (fun c => c :: rest) ["A"; "G"; "C"; "T"]%char)
                     (all_kmers k')
  end.

(** ** Region featurizer *)

(** A Python int as a numpy [float64]: the nearest binary64, exact
    below [2^53] in absolute value. Counts and window numbers are
    bounded by the length of a sequence; the conversion is meant for
    integers below [2^63] only. *)
Definition to_float (z : Z) : float :=
  if z <? 0 then PrimFloat.opp (PrimFloat.of_uint63 (Uint63.of_Z (- z)))
  else PrimFloat.of_uint63 (Uint63.of_Z z).

(** [ret[idx] += 1], with the bounds check of the array. Negative
    indices, which numpy counts from the end, are not produced by
    [kmer_index]. *)
Definition array_incr (ret : list Z) (idx : Z) : result (list Z) :=
  if (0 <=? idx) && (idx <? Z.of_nat (length ret))
  then Ok (alter Z.succ (Z.to_nat idx) ret)
  else Raise IndexError.

(** [for i in range(number_of_kmers): ret[kmer_index(seq[i:i+k])] += 1],
    [starts] being the window starts still to visit. *)
Fixpoint count_loop (seq : str) (k : Z) (starts : list Z) (ret : list Z)
  : result (list Z) :=
  match starts with
  | [] => Ok ret
  | i :: rest =>
      idx <- kmer_index (slice seq i (i + k)) ;;
      ret' <- array_incr ret idx ;;
      count_loop seq k rest ret'
  end.

(** The size from which numpy refuses an array of [float64] on a
    64-bit machine: [8 * n] bytes must fit a signed 64-bit integer. *)
Definition np_size_limit : Z := 2 ^ 60.

(** [np.zeros(n)] for a Python int [n >= 0]: [ValueError] when [n] is
    beyond what numpy can address ("Maximum allowed dimension
    exceeded", "array is too big"), [MemoryError] when the process
    cannot allocate [n] entries, else [n] zeros. *)
Definition np_zeros (mem : Z) (n : Z) : result (list Z) :=
  if np_size_limit <=? n then Raise ValueError
  else if mem <? n then Raise MemoryError
  else Ok (replicate (Z.to_nat n) 0).

(** There is room for the array of [kfeat]: [np.zeros(4 ** k)]
    succeeds. *)
Definition room (mem k : Z) : Prop := 4 ^ k < np_size_limit /\ 4 ^ k <= mem.

(** Lines 32-35 of [kfeat]. The entries of [ret] are whole numbers
    until the division, and are kept as integers here; [4 ** k] is a
    Python float for a negative [k], which [np.zeros] rejects. *)
Definition kfeat_counts (mem : Z) (seq : str) (k : Z) : result (list Z) :=
  if k <? 0 then Raise TypeError
  else
    ret <- np_zeros mem (4 ^ k) ;;
    let number_of_kmers := Z.of_nat (length seq) - k + 1 in
    count_loop seq k (range number_of_kmers) ret.

(** [ret /= number_of_kmers]: numpy's true division, entry by entry; a
    zero divisor yields [nan] or an infinity, never an exception. *)
Definition np_divide (ret : list Z) (d : Z) : list float :=
  map (fun c => PrimFloat.div (to_float c) (to_float d)) ret.

Definition kfeat (mem : Z) (seq : str) (k : Z) (normalize : bool)
  : result (list float) :=
  ret <- kfeat_counts mem seq k ;;
  let number_of_kmers := Z.of_nat (length seq) - k + 1 in
  if normalize then Ok (np_divide ret number_of_kmers)
  else Ok (map to_float ret).

(** The windows [seq[i:i+k]] that [kfeat] visits, in order. *)
Definition windows (seq : str) (k : Z) : list str :=
  map (fun i => slice seq i (i + k)) (range (Z.of_nat (length seq) - k + 1)).

Definition sumZ (l : list Z) : Z := fold_right Z.add 0 l.

(** The number of strings of [ws] that [kmer_index] sends to [idx]. *)
Definition hits (idx : Z) (ws : list str) : Z :=
  Z.of_nat (length (List.filter (fun w => match kmer_index w with
                                          | Ok i => i =? idx
                                          | Raise _ => false
                                          end) ws)).




(** What [kfeats] may be handed and what it iterates over: a list, or
    a [str], whose iteration yields its one-character strings. *)
Inductive pyseq : Type :=
| PStr (s : str)
| PList (items : list pyseq).

Definition py_iter (v : pyseq) : list pyseq :=
  match v with
  | PStr s => map (fun c => PStr [c]) s
  | PList items => items
  end.

(** A numpy array: a vector of floats or a stack of arrays. *)
Inductive ndarray : Type :=
| Vec (v : list float)
| Stack (rows : list ndarray).

Fixpoint shape (a : ndarray) : list nat :=
  match a with
  | Vec v => [length v]
  | Stack rows =>
      length rows :: match rows with
                     | [] => []
                     | r :: _ => shape r
                     end
  end.

(** [np.array(rows)] on a list of arrays: the rows must agree in shape. *)
Definition np_array (rows : list ndarray) : result ndarray :=
  match rows with
  | [] => Ok (Stack [])
  | r :: rest =>
      if forallb (fun r' => bool_decide (shape r' = shape r)) rest
      then Ok (Stack rows)
      else Raise ValueError
  end.

(** [kfeats]: the comprehension calls [kfeats] itself on every element.
    [depth] is the number of stack frames left before the interpreter
    raises [RecursionError]. *)
Fixpoint kfeats (depth : nat) (seqs : pyseq) (k : Z) (normalize : bool)
  : result ndarray :=
  match depth with
  | O => Raise RecursionError
  | S d =>
      rows <- map_result (fun x => kfeats d x k normalize) (py_iter seqs) ;;
      np_array rows
  end.

(** What the docstring of [kfeats] describes: one [kfeat] row per
    sequence. *)
Definition kfeats_rows (mem : Z) (seqs : list str) (k : Z) (normalize : bool)
  : result (list (list float)) :=
  map_result (fun s => kfeat mem s k normalize) seqs.

(** ** Sequence resolver *)

Definition region : Type := str * Z * Z.

(** The reference accessor, [pysam.FastaFile(ref_fn).fetch(chrom, start, end)]:
    an external collaborator, taken as a parameter. *)
Definition accessor : Type := str -> str -> Z -> Z -> result str.

(** [NUCFILT = re.compile("[^ATCG]")]: the characters the pattern matches. *)
Definition NUCFILT (c : ascii) : bool :=
  negb (existsb (Ascii.eqb c) ["A"; "T"; "C"; "G"]%char).

(** [NUCFILT.sub("", s)]: every match is replaced by the empty string. *)
Definition NUCFILT_sub (s : str) : str :=
  List.filter (fun c => negb (NUCFILT c)) s.

Definition get_features (fetch : accessor) (mem : Z) (reg : region) (ref_fn : str)
  (k : Z) (normalize : bool) : result (list float) :=
  let '(chrom, start, end_) := reg in
  raw <- fetch ref_fn chrom start end_ ;;
  let seq := NUCFILT_sub raw in
  kfeat mem seq k normalize.

(** ** Parallel orchestrator *)

(** [multiprocessing.Pool.map]: the input is cut into task batches, each
    batch is mapped by some worker, and the outcomes come back in an
    order the scheduler decides. The order of delivery is the
    parameter [sched], a list of batch numbers. *)
Module Pool.

(** The default chunk size of [Pool.map]. *)
Definition chunksize (nproc : Z) (len : nat) : nat :=
  if (len =? 0)%nat then O
  else
    let q := Z.of_nat len / (nproc * 4) in
    let extra := Z.of_nat len mod (nproc * 4) in
    Z.to_nat (if extra =? 0 then q else q + 1).

(** The task batches: successive slices of [size] items until none
    is left. *)
Fixpoint get_tasks {A} (fuel size : nat) (it : list A) : list (list A) :=
  match fuel with
  | O => []
  | S fuel' =>
      match firstn size it with
      | [] => []
      | x => x :: get_tasks fuel' size (skipn size it)
      end
  end.

Definition tasks {A} (nproc : Z) (xs : list A) : list (list A) :=
  get_tasks (S (length xs)) (chunksize nproc (length xs)) xs.

(** The state of the pending result: the slots of the batches
    received so far, or the first exception received. *)
Inductive pending (B : Type) : Type :=
| Collecting (slots : list (option (list B)))
| Failed (e : exn).
Arguments Collecting {B} slots.
Arguments Failed {B} e.

(** Batch [i] comes back with outcome [r]. *)
Definition set {B} (i : nat) (r : result (list B)) (st : pending B) : pending B :=
  match st with
  | Collecting slots =>
      match r with
      | Ok ys => Collecting (<[i := Some ys]> slots)
      | Raise e => Failed e
      end
  | Failed e => Failed e
  end.

(** Once every batch is back: the values in input order, or the
    stored exception. *)
Definition get {B} (st : pending B) : result (list B) :=
  match st with
  | Collecting slots =>
      Ok (flat_map (fun slot => match slot with
                                | Some ys => ys
                                | None => []
                                end) slots)
  | Failed e => Raise e
  end.

Definition deliver {B} (outcomes : list (result (list B)))
  (st : pending B) (i : nat) : pending B :=
  match outcomes !! i with
  | Some r => set i r st
  | None => st
  end.

Definition map {A B} (nproc : Z) (sched : list nat)
  (func : A -> result B) (iterable : list A) : result (list B) :=
  if nproc <? 1 then Raise ValueError
  else
    let batches := tasks nproc iterable in
    let outcomes := List.map (map_result func) batches in
    get (fold_left (deliver outcomes) sched
           (Collecting (replicate (length batches) None))).

(** A schedule delivers every batch exactly once. *)
Definition schedule {A} (nproc : Z) (xs : list A) (sched : list nat) : Prop :=
  Permutation sched (seq 0 (length (tasks nproc xs))).

End Pool.

(** [np.vstack([result])]: the one argument is turned into a 2-D array,
    so the rows must agree in length, and no row at all gives a
    single empty row. *)
Definition np_vstack1 (rows : list (list float)) : result (list (list float)) :=
  match rows with
  | [] => Ok [[]]
  | r :: rest =>
      if forallb (fun r' => (length r' =? length r)%nat) rest
      then Ok rows
      else Raise ValueError
  end.

(** [regions_to_kmers]: [m_caller] fixes [ref_fn] and [k] and leaves
    [normalize] at its default, [True]. *)
Definition regions_to_kmers (fetch : accessor) (mem : Z) (sched : list nat)
  (regions : list region) (reference : str) (k : Z) (nproc : Z)
  : result (list (list float)) :=
  let m_caller := fun reg => get_features fetch mem reg reference k true in
  result <- Pool.map nproc sched m_caller regions ;;
  np_vstack1 result.

(** ** A worked example

    Two regions on "chr1" and a reference that answers "ACGTACGTAA" on
    the first and "ACG" on the second (and knows no other interval). *)
Definition example_regions : list region :=
  [(py "chr1", 0, 10); (py "chr1", 100, 105)].

(** Five regions, and a batch whose second region the example
    reference cannot resolve. *)
Definition example_batch : list region :=
  example_regions ++ example_regions ++ [(py "chr1", 0, 10)].


(** Room for [2^30] entries, 8 GiB. *)
Definition example_mem : Z := 2 ^ 30.

Definition example_reference : accessor :=
  fun ref_fn chrom start end_ =>
    if (start =? 0) && (end_ =? 10) then Ok (py "ACGTACGTAA")
    else if (start =? 100) && (end_ =? 105) then Ok (py "ACG")
    else Raise (KeyError chrom).

(** ** Decoding and occurrences

    Two notions the properties are stated with: the k-mer that an
    index stands for, and the number of times a k-mer occurs among
    the windows of a sequence. *)

Definition nuc_of_code (c : Z) : ascii :=
  if c =? 0 then "A"%char
  else if c =? 1 then "G"%char
  else if c =? 2 then "C"%char
  else "T"%char.

(** The string of length [k] whose base-4 digits, least significant
    first, are those of [idx]. *)
Fixpoint kmer_of_index (k : nat) (idx : Z) : str :=
  match k with
  | O => []
  | S k' => nuc_of_code (idx mod 4) :: kmer_of_index k' (idx / 4)
  end.

Definition occurrences (kmer : str) (ws : list str) : Z :=
  Z.of_nat (count_occ (List.list_eq_dec ascii_dec) ws kmer).

(** ** Region source *)

Definition tab : ascii := ascii_of_nat 9.
Definition newline : ascii := ascii_of_nat 10.

(** The characters [str.strip()] removes: those for which
    [str.isspace()] holds, among the first 256 code points. *)
Definition py_isspace (c : ascii) : bool :=
  existsb (Nat.eqb (nat_of_ascii c)) [9; 10; 11; 12; 13; 28; 29; 30; 31; 32; 133; 160]%nat.

Fixpoint lstrip (s : str) : str :=
  match s with
  | [] => []
  | c :: rest => if py_isspace c then lstrip rest else s
  end.

Fixpoint rstrip (s : str) : str :=
  match s with
  | [] => []
  | c :: rest =>
      match rstrip rest with
      | [] => if py_isspace c then [] else [c]
      | rest' => c :: rest'
      end
  end.

(** [s.strip()] *)
Definition strip (s : str) : str := rstrip (lstrip s).

(** [s.split('\t')]: the fields between the tabs, empty ones
    included; never an empty list. *)
Fixpoint split_tab (s : str) : list str :=
  match s with
  | [] => [[]]
  | c :: rest =>
      if Ascii.eqb c tab then [] :: split_tab rest
      else match split_tab rest with
           | [] => [[c]]
           | field :: fields => (c :: field) :: fields
           end
  end.

(** The white space [int()] skips at both ends of its argument. *)
Definition int_space (c : ascii) : bool :=
  existsb (Nat.eqb (nat_of_ascii c)) [9; 10; 11; 12; 13; 32; 133; 160]%nat.

Definition digit_of (c : ascii) : option Z :=
  let n := nat_of_ascii c in
  if ((48 <=? n) && (n <=? 57))%nat then Some (Z.of_nat (n - 48)) else None.

(** The rest of a decimal literal, a digit having just been read:
    more digits, single underscores each followed by a digit, then
    white space only. [acc] is the value so far and [ndigits] the
    number of digits read. *)
Fixpoint int_digits (s : str) (acc : Z) (ndigits : nat) : result (Z * nat) :=
  match s with
  | [] => Ok (acc, ndigits)
  | c :: rest =>
      match digit_of c with
      | Some d => int_digits rest (acc * 10 + d) (S ndigits)
      | None =>
          if Ascii.eqb c "_" then
            match rest with
            | c' :: rest' =>
                match digit_of c' with
                | Some d => int_digits rest' (acc * 10 + d) (S ndigits)
                | None => Raise ValueError
                end
            | [] => Raise ValueError
            end
          else if forallb int_space s then Ok (acc, ndigits)
          else Raise ValueError
      end
  end.

(** The interpreter's default limit on the digits of a decimal
    literal handed to [int()]. *)
Definition int_max_str_digits : nat := 4300.

Definition int_unsigned (s : str) : result Z :=
  match s with
  | c :: rest =>
      match digit_of c with
      | Some d =>
          r <- int_digits rest d 1 ;;
          if (snd r <=? int_max_str_digits)%nat then Ok (fst r) else Raise ValueError
      | None => Raise ValueError
      end
  | [] => Raise ValueError
  end.

Fixpoint dropwhile_int_space (s : str) : str :=
  match s with
  | [] => []
  | c :: rest => if int_space c then dropwhile_int_space rest else s
  end.

(** [int(s)] for a [str]: base 10, an optional sign, white space
    allowed around the literal; anything else is a [ValueError]. *)
Definition py_int (s : str) : result Z :=
  match dropwhile_int_space s with
  | c :: rest =>
      if Ascii.eqb c "-" then v <- int_unsigned rest ;; Ok (- v)
      else if Ascii.eqb c "+" then int_unsigned rest
      else int_unsigned (c :: rest)
  | [] => Raise ValueError
  end.

(** [str(n)] for an int: the decimal digits, with a minus sign for a
    negative number. *)
Definition py_str (n : Z) : str :=
  list_ascii_of_string (NilZero.string_of_int (Z.to_int n)).

(** The body of the loop of [iter_regions]: [data[:3]] must unpack
    into three fields. *)
Definition region_of_line (line : str) : result region :=
  let data := split_tab (strip line) in
  match firstn 3 data with
  | [chrom; start; end_] =>
      start' <- py_int start ;;
      end' <- py_int end_ ;;
      Ok (chrom, start', end')
  | _ => Raise ValueError
  end.

(** [iter_regions], run to exhaustion as [Pool.map] does with it.
    [opt_gz_open] is [truvari.opt_gz_open], which yields the lines
    of the file. *)
Definition iter_regions (opt_gz_open : str -> result (list str)) (fn : str)
  : result (list region) :=
  fh <- opt_gz_open fn ;;
  map_result region_of_line fh.

(** ** Command line *)

(** The names bound in the module when [kfeat_main] runs: what it
    imports, assigns and defines. *)
Definition module_globals : list string :=
  ["re"; "multiprocessing"; "List"; "partial"; "pysam"; "joblib"; "truvari";
   "np"; "ArrayLike"; "NUCS"; "NUCFILT"; "kmer_index"; "kfeat"; "kfeats";
   "get_features"; "iter_regions"; "regions_to_kmers"; "parse_args";
   "kfeat_main"]%string.

(** What a run of the command can end with: an uncaught [NameError],
    or an exception of the featurization. *)
Inductive cli_exn : Type :=
| NameError (name : string)
| Uncaught (e : exn).

Inductive cli_result (A : Type) : Type :=
| Done (a : A)
| Crash (e : cli_exn).
Arguments Done {A} a.
Arguments Crash {A} e.

(** Evaluating a global name: no builtin is called [argparse], so
    the module's own names decide. *)
Definition load_global (name : string) : cli_result unit :=
  if existsb (String.eqb name) module_globals then Done tt
  else Crash (NameError name).

Record namespace : Type := {
  ns_regions : str;
  ns_reference : str;
  ns_output : str;
  ns_kmer : Z;
  ns_threads : Z
}.

(** [parse_args]: its first statement evaluates
    [argparse.ArgumentParser]; [parser] stands for everything the
    [argparse] module would do from there. *)
Definition parse_args (parser : list str -> cli_result namespace)
  (args : list str) : cli_result namespace :=
  match load_global "argparse" with
  | Done _ => parser args
  | Crash e => Crash e
  end.

(** [kfeat_main]. The generator of [iter_regions] is consumed inside
    [regions_to_kmers], once the pool exists. The value returned
    stands for [joblib.dump(data, args.output)]: the matrix and the
    path it is written to. *)
Definition kfeat_main (parser : list str -> cli_result namespace)
  (opt_gz_open : str -> result (list str)) (fetch : accessor) (mem : Z)
  (sched : list nat) (args : list str)
  : cli_result (list (list float) * str) :=
  match parse_args parser args with
  | Crash e => Crash e
  | Done a =>
      let data :=
        if ns_threads a <? 1 then Raise ValueError
        else
          m_reg <- iter_regions opt_gz_open (ns_regions a) ;;
          regions_to_kmers fetch mem sched m_reg (ns_reference a) (ns_kmer a)
            (ns_threads a) in
      match data with
      | Ok data => Done (data, ns_output a)
      | Raise e => Crash (Uncaught e)
      end
  end.

(** * Properties *)

(** ** The error monad *)

Lemma map_result_ok {A B} (f : A -> result B) (g : A -> B) (xs : list A) :
  (forall x, In x xs -> f x = Ok (g x)) ->
  map_result f xs = Ok (List.map g xs).
Proof.
  induction xs as [|x xs IH]; intros Hf; simpl; [reflexivity|].
  rewrite (Hf x) by (left; reflexivity). simpl.
  rewrite IH by (intros y Hy; apply Hf; right; exact Hy).
  reflexivity.
Qed.


Lemma map_result_inv {A B} (f : A -> result B) (xs : list A) (ys : list B) :
  map_result f xs = Ok ys -> Forall2 (fun x y => f x = Ok y) xs ys.
Proof.
  revert ys. induction xs as [|x xs IH]; simpl; intros ys H.
  - injection H as <-. constructor.
  - destruct (f x) as [b|e] eqn:Hx; simpl in H; [|discriminate].
    destruct (map_result f xs) as [bs|e] eqn:Hxs; simpl in H; [|discriminate].
    injection H as <-. constructor; auto.
Qed.

(** ** K-mer encoder *)

Lemma is_nuc_cases (c : ascii) :
  is_nuc c = true ->
  c = "A"%char \/ c = "G"%char \/ c = "C"%char \/ c = "T"%char.
Proof.
  unfold is_nuc. cbn [existsb]. rewrite !orb_true_iff, !Ascii.eqb_eq.
  intros [H|[H|[H|[H|H]]]]; auto; discriminate.
Qed.

Lemma NUCS_nuc (c : ascii) :
  is_nuc c = true -> dict_get NUCS c = Some (code c) /\ 0 <= code c < 4.
Proof.
  intros H. destruct (is_nuc_cases c H) as [-> | [-> | [-> | ->]]];
    vm_compute; repeat split; congruence.
Qed.

Lemma NUCS_missing (c : ascii) :
  is_nuc c = false -> dict_get NUCS c = None.
Proof.
  unfold is_nuc. cbn [existsb dict_get NUCS]. rewrite !orb_false_iff.
  intros (HA & HG & HC & HT & _).
  rewrite (Ascii.eqb_sym "A" c), HA, (Ascii.eqb_sym "G" c), HG,
    (Ascii.eqb_sym "C" c), HC, (Ascii.eqb_sym "T" c), HT.
  reflexivity.
Qed.

Lemma code_inj (a b : ascii) :
  is_nuc a = true -> is_nuc b = true -> code a = code b -> a = b.
Proof.
  intros Ha Hb.
  destruct (is_nuc_cases a Ha) as [-> | [-> | [-> | ->]]];
    destruct (is_nuc_cases b Hb) as [-> | [-> | [-> | ->]]];
    vm_compute; congruence.
Qed.

Lemma shiftl_code (c pos : Z) : 0 <= pos -> Z.shiftl c (pos * 2) = c * 4 ^ pos.
Proof.
  intros Hpos. rewrite Z.shiftl_mul_pow2 by lia.
  replace (pos * 2) with (2 * pos) by lia.
  rewrite Z.pow_mul_r by lia. reflexivity.
Qed.

Lemma kmer_index_loop_sigma (kmer : str) (pos index : Z) :
  0 <= pos -> nucleotides kmer ->
  kmer_index_loop kmer pos index = Ok (index + sigma pos (List.map code kmer)).
Proof.
  revert pos index. induction kmer as [|nuc rest IH]; intros pos index Hpos Hn.
  - simpl. f_equal. lia.
  - inversion Hn as [|? ? Hc Hrest]; subst.
    cbn [kmer_index_loop List.map sigma].
    destruct (NUCS_nuc nuc Hc) as [-> _].
    rewrite IH by (auto; lia). rewrite shiftl_code by lia.
    f_equal. lia.
Qed.

Lemma sigma_shift (pos : Z) (cs : list Z) :
  0 <= pos -> sigma pos cs = 4 ^ pos * sigma 0 cs.
Proof.
  revert pos. induction cs as [|c cs IH]; intros pos Hpos; simpl; [lia|].
  rewrite (IH (pos + 1)) by lia. rewrite (IH (0 + 1)) by lia.
  rewrite Z.pow_add_r by lia. change (4 ^ 0) with 1. change (4 ^ (0 + 1)) with 4.
  change (4 ^ 1) with 4. lia.
Qed.

Lemma sigma_cons (c : Z) (cs : list Z) :
  sigma 0 (c :: cs) = c + 4 * sigma 0 cs.
Proof.
  cbn [sigma]. rewrite (sigma_shift (0 + 1)) by lia.
  change (4 ^ 0) with 1. change (4 ^ (0 + 1)) with 4. lia.
Qed.

Lemma sigma_bounds (kmer : str) :
  nucleotides kmer ->
  0 <= sigma 0 (List.map code kmer) < 4 ^ Z.of_nat (length kmer).
Proof.
  induction 1 as [|c rest Hc Hrest IH].
  - simpl. lia.
  - cbn [List.map length]. rewrite sigma_cons.
    rewrite Nat2Z.inj_succ, Z.pow_succ_r by lia.
    destruct (NUCS_nuc c Hc) as [_ Hcode]. lia.
Qed.

Lemma sigma_inj (a b : str) :
  nucleotides a -> nucleotides b -> length a = length b ->
  sigma 0 (List.map code a) = sigma 0 (List.map code b) -> a = b.
Proof.
  intros Ha. revert b. induction Ha as [|c rest Hc Hrest IH]; intros b Hb Hlen Heq.
  - destruct b; [reflexivity|discriminate].
  - destruct Hb as [|d rest' Hd Hrest']; [discriminate|].
    cbn [List.map] in Heq. rewrite !sigma_cons in Heq.
    destruct (NUCS_nuc c Hc) as [_ Hcc]. destruct (NUCS_nuc d Hd) as [_ Hcd].
    assert (code c = code d /\
            sigma 0 (List.map code rest) = sigma 0 (List.map code rest')) as [H1 H2] by lia.
    f_equal; [apply code_inj; assumption|].
    apply IH; [assumption| simpl in Hlen; lia | assumption].
Qed.

Lemma kmer_index_nucleotides (kmer : str) :
  nucleotides kmer -> kmer_index kmer = Ok (sigma 0 (List.map code kmer)).
Proof.
  intros H. unfold kmer_index. rewrite kmer_index_loop_sigma by (auto; lia).
  reflexivity.
Qed.

Lemma kmer_index_loop_raises (kmer : str) (pos index : Z) :
  ~ nucleotides kmer ->
  exists c, In c kmer /\ is_nuc c = false /\
            kmer_index_loop kmer pos index = Raise (KeyError [c]).
Proof.
  revert pos index. induction kmer as [|nuc rest IH]; intros pos index Hn.
  - exfalso. apply Hn. constructor.
  - cbn [kmer_index_loop]. destruct (is_nuc nuc) eqn:Hc.
    + destruct (NUCS_nuc nuc Hc) as [-> _].
      destruct (IH (pos + 1) (index + Z.shiftl (code nuc) (pos * 2))) as (c & Hin & Hcn & Hr).
      { intros Hrest. apply Hn. constructor; assumption. }
      exists c. split; [right; exact Hin|]. split; assumption.
    + rewrite (NUCS_missing nuc Hc). exists nuc.
      split; [left; reflexivity|]. split; [assumption|reflexivity].
Qed.

Lemma all_kmers_spec (k : nat) (kmer : str) :
  In kmer (all_kmers k) <-> length kmer = k /\ nucleotides kmer.
Proof.
  revert kmer. induction k as [|k IH]; intros kmer; simpl.
  - split.
    + intros [<- | []]. split; [reflexivity|constructor].
    + intros [Hl _]. destruct kmer; [left; reflexivity|discriminate].
  - rewrite in_flat_map. split.
    + intros (rest & Hrest & Hin). apply IH in Hrest as [Hl Hn].
      simpl in Hin.
      destruct Hin as [<- | [<- | [<- | [<- | []]]]]; (split; [simpl; congruence|]);
        constructor; auto.
    + intros [Hl Hn]. destruct Hn as [|c rest Hc Hrest]; [discriminate|].
      exists rest. split; [apply IH; split; [simpl in Hl; congruence|assumption]|].
      simpl. destruct (is_nuc_cases c Hc) as [-> | [-> | [-> | ->]]]; auto.
Qed.

(** C3. [kmer_index] is the base-4 encoding with the first character
    least significant: with the codes A=0, G=1, C=2, T=3, a string
    over the alphabet is sent to the sum of [code(s[pos]) * 4^pos],
    which lies in [[0, 4^k)]; two such strings of equal length with
    the same index are equal; and for k=2 the 16 two-letter strings
    are sent onto 0..15, one each, "AA" to 0 and "TT" to 15. *)
Theorem kmer_index_encoding :
  (code "A" = 0 /\ code "G" = 1 /\ code "C" = 2 /\ code "T" = 3) /\
  (forall kmer : str, nucleotides kmer ->
     kmer_index kmer = Ok (sigma 0 (List.map code kmer)) /\
     0 <= sigma 0 (List.map code kmer) < 4 ^ Z.of_nat (length kmer)) /\
  (forall a b : str, nucleotides a -> nucleotides b -> length a = length b ->
     kmer_index a = kmer_index b -> a = b) /\
  (forall kmer : str, length kmer = 2%nat -> nucleotides kmer ->
     In kmer (all_kmers 2)) /\
  length (all_kmers 2) = 16%nat /\
  List.map kmer_index (all_kmers 2) = List.map Ok (range 16) /\
  kmer_index (py "AA") = Ok 0 /\
  kmer_index (py "TT") = Ok 15.
Proof.
  split; [repeat split; reflexivity|].
  split.
  { intros kmer Hn. split; [apply kmer_index_nucleotides|apply sigma_bounds]; exact Hn. }
  split.
  { intros a b Ha Hb Hlen Heq.
    rewrite (kmer_index_nucleotides a Ha), (kmer_index_nucleotides b Hb) in Heq.
    injection Heq as Heq. apply sigma_inj; assumption. }
  split.
  { intros kmer Hlen Hn. apply all_kmers_spec. split; assumption. }
  repeat split; vm_compute; reflexivity.
Qed.

Lemma kmer_index_encoding_witness :
  kmer_index (py "GATTACA") = Ok 2289 /\
  (kmer_index (py "GA") = kmer_index (py "GA") -> py "GA" = py "GA").
Proof.
  assert (Hn : nucleotides (py "GATTACA")) by (repeat constructor).
  assert (Hg : nucleotides (py "GA")) by (repeat constructor).
  split.
  - exact (proj1 (proj1 (proj2 kmer_index_encoding) (py "GATTACA") Hn)).
  - exact (proj1 (proj2 (proj2 kmer_index_encoding)) (py "GA") (py "GA") Hg Hg eq_refl).
Defined.

(** C8. A string with a character outside {A,G,C,T} makes
    [kmer_index] raise, with the offending character as the key of
    the [KeyError] (the encoder's invalid-nucleotide failure); no
    value is returned and no default code is used. A string over the
    alphabet never makes it raise. *)
Theorem kmer_index_invalid_nucleotide (kmer : str) :
  ((exists c, In c kmer /\ is_nuc c = false) ->
   exists c, In c kmer /\ is_nuc c = false /\
             kmer_index kmer = Raise (KeyError [c])) /\
  (nucleotides kmer -> exists idx, kmer_index kmer = Ok idx).
Proof.
  split.
  - intros (c & Hin & Hc). apply kmer_index_loop_raises.
    intros Hn. unfold nucleotides in Hn. rewrite List.Forall_forall in Hn.
    specialize (Hn c Hin). congruence.
  - intros Hn. eexists. apply kmer_index_nucleotides. exact Hn.
Qed.

Lemma kmer_index_invalid_nucleotide_witness :
  (exists c, In c (py "ACNT") /\ is_nuc c = false /\
             kmer_index (py "ACNT") = Raise (KeyError [c])) /\
  (exists idx, kmer_index (py "ACGT") = Ok idx).
Proof.
  split.
  - apply (proj1 (kmer_index_invalid_nucleotide (py "ACNT"))).
    exists "N"%char. split; [simpl; tauto|reflexivity].
  - apply (proj2 (kmer_index_invalid_nucleotide (py "ACGT"))).
    repeat constructor.
Defined.

(** ** Region featurizer *)

Lemma range_spec (i n : Z) : In i (range n) <-> 0 <= i < n.
Proof.
  unfold range. rewrite in_map_iff. split.
  - intros (j & <- & Hj). apply in_seq in Hj. lia.
  - intros Hi. exists (Z.to_nat i). split; [lia|]. apply in_seq. lia.
Qed.

Lemma range_length (n : Z) : Z.of_nat (length (range n)) = Z.max 0 n.
Proof. unfold range. rewrite length_map, length_seq. lia. Qed.

Lemma slice_length (s : str) (i k : Z) :
  0 <= i -> 0 <= k -> i + k <= Z.of_nat (length s) ->
  length (slice s i (i + k)) = Z.to_nat k.
Proof.
  intros Hi Hk Hlen. unfold slice.
  rewrite length_firstn, length_skipn. lia.
Qed.

Lemma slice_nucleotides (s : str) (i j : Z) :
  nucleotides s -> nucleotides (slice s i j).
Proof.
  intros H. unfold slice, nucleotides. apply Forall_take, Forall_drop, H.
Qed.

Lemma sumZ_alter_succ (l : list Z) (i : nat) :
  (i < length l)%nat -> sumZ (alter Z.succ i l) = sumZ l + 1.
Proof.
  revert i. induction l as [|x l IH]; intros i Hi; simpl in Hi; [lia|].
  destruct i as [|i]; simpl.
  - lia.
  - pose proof (IH i ltac:(lia)) as H. unfold alter in H. lia.
Qed.

Lemma sumZ_zeros (n : nat) : sumZ (replicate n 0) = 0.
Proof. induction n as [|n IH]; simpl; [reflexivity|exact IH]. Qed.

Lemma hits_cons (idx : Z) (w : str) (ws : list str) :
  nucleotides w ->
  hits idx (w :: ws) =
    (if sigma 0 (List.map code w) =? idx then 1 else 0) + hits idx ws.
Proof.
  intros Hw. unfold hits. cbn [List.filter].
  rewrite (kmer_index_nucleotides w Hw).
  destruct (sigma 0 (List.map code w) =? idx); cbn [length]; lia.
Qed.

(** The counting loop on a sequence over the alphabet: it does not
    raise, keeps the length of the array, and adds to each entry the
    number of visited windows with that index. *)
Lemma count_loop_spec (seq : str) (k : Z) (starts : list Z) (ret : list Z) :
  0 <= k -> nucleotides seq ->
  (forall i, In i starts -> 0 <= i /\ i + k <= Z.of_nat (length seq)) ->
  Z.of_nat (length ret) = 4 ^ k ->
  exists ret',
    count_loop seq k starts ret = Ok ret' /\
    length ret' = length ret /\
    sumZ ret' = sumZ ret + Z.of_nat (length starts) /\
    forall (j : nat) (c : Z), ret !! j = Some c ->
      ret' !! j = Some (c + hits (Z.of_nat j)
                              (List.map (fun i => slice seq i (i + k)) starts)).
Proof.
  intros Hk Hseq. revert ret.
  induction starts as [|i rest IH]; intros ret Hstarts Hlen.
  - exists ret. cbn. repeat split; try lia.
    intros j c Hj. rewrite Hj. f_equal. unfold hits. simpl. lia.
  - destruct (Hstarts i) as [Hi0 Hik]; [left; reflexivity|].
    pose proof (slice_nucleotides seq i (i + k) Hseq) as Hw.
    pose proof (slice_length seq i k Hi0 Hk Hik) as Hwl.
    pose proof (sigma_bounds _ Hw) as Hb. rewrite Hwl, Z2Nat.id in Hb by lia.
    set (w := slice seq i (i + k)) in *.
    set (idx := sigma 0 (List.map code w)) in *.
    assert (Hincr : array_incr ret idx = Ok (alter Z.succ (Z.to_nat idx) ret)).
    { unfold array_incr.
      destruct (0 <=? idx) eqn:H0; [|lia].
      destruct (idx <? Z.of_nat (length ret)) eqn:H1; [reflexivity|lia]. }
    destruct (IH (alter Z.succ (Z.to_nat idx) ret)) as (ret' & Hloop & Hl & Hs & Hj).
    { intros i' Hi'. apply Hstarts. right. exact Hi'. }
    { rewrite length_alter. exact Hlen. }
    exists ret'. cbn [count_loop]. fold w.
    rewrite (kmer_index_nucleotides w Hw). fold idx. cbn [bind].
    rewrite Hincr. cbn [bind]. rewrite Hloop.
    split; [reflexivity|].
    split; [rewrite Hl; apply length_alter|].
    split.
    { rewrite Hs, sumZ_alter_succ by lia. cbn [length]. lia. }
    intros j c Hjc. cbn [List.map]. fold w. rewrite (hits_cons _ w _ Hw). fold idx.
    destruct (decide (Z.to_nat idx = j)) as [Heq|Hne].
    + rewrite (Hj j (Z.succ c)).
      * f_equal. destruct (idx =? Z.of_nat j) eqn:E; lia.
      * rewrite <- Heq, list_lookup_alter_eq. rewrite Heq, Hjc. reflexivity.
    + rewrite (Hj j c).
      * f_equal. destruct (idx =? Z.of_nat j) eqn:E; lia.
      * rewrite list_lookup_alter_ne by exact Hne. exact Hjc.
Qed.

Lemma windows_spec (seq : str) (k : Z) (w : str) :
  0 <= k -> nucleotides seq -> In w (windows seq k) ->
  nucleotides w /\ Z.of_nat (length w) = k.
Proof.
  intros Hk Hseq Hin. unfold windows in Hin. apply in_map_iff in Hin as (i & <- & Hi).
  apply range_spec in Hi. split; [apply slice_nucleotides, Hseq|].
  rewrite slice_length by lia. lia.
Qed.

Lemma windows_length (seq : str) (k : Z) :
  Z.of_nat (length (windows seq k)) = Z.max 0 (Z.of_nat (length seq) - k + 1).
Proof. unfold windows. rewrite length_map. apply range_length. Qed.


(** [np.zeros(4 ** k)] returns the zeros when there is room for them,
    and raises otherwise, whatever the sequence. *)
Lemma np_zeros_room (mem k : Z) :
  room mem k -> np_zeros mem (4 ^ k) = Ok (replicate (Z.to_nat (4 ^ k)) 0).
Proof.
  intros [Hlim Hmem]. unfold np_zeros.
  destruct (np_size_limit <=? 4 ^ k) eqn:E1; [lia|].
  destruct (mem <? 4 ^ k) eqn:E2; [lia|]. reflexivity.
Qed.

Lemma np_zeros_no_room (mem k : Z) :
  ~ room mem k ->
  np_zeros mem (4 ^ k) = Raise ValueError \/ np_zeros mem (4 ^ k) = Raise MemoryError.
Proof.
  intros H. unfold np_zeros, room in *.
  destruct (np_size_limit <=? 4 ^ k) eqn:E1; [left; reflexivity|].
  destruct (mem <? 4 ^ k) eqn:E2; [right; reflexivity|]. lia.
Qed.

Lemma room_dec (mem k : Z) : room mem k \/ ~ room mem k.
Proof. unfold room. lia. Qed.

Lemma example_room (k : Z) : 0 <= k <= 15 -> room example_mem k.
Proof.
  intros H. unfold room, np_size_limit, example_mem.
  assert (4 ^ k <= 4 ^ 15) by (apply Z.pow_le_mono_r; lia).
  change (4 ^ 15) with 1073741824 in *.
  change (2 ^ 60) with 1152921504606846976. change (2 ^ 30) with 1073741824. lia.
Qed.

(** Without room for the array [kfeat] raises before the loop. *)
Lemma kfeat_no_room (mem : Z) (seq : str) (k : Z) (normalize : bool) :
  0 <= k -> ~ room mem k ->
  kfeat mem seq k normalize = Raise ValueError \/
  kfeat mem seq k normalize = Raise MemoryError.
Proof.
  intros Hk H. unfold kfeat, kfeat_counts.
  destruct (k <? 0) eqn:E; [lia|].
  destruct (np_zeros_no_room mem k H) as [-> | ->]; [left|right]; reflexivity.
Qed.

(** [kfeat("ACGT", 32, False)], and any call with [k >= 30], raises
    [ValueError] whatever the memory. *)
Lemma kfeat_too_big (mem : Z) (seq : str) (k : Z) (normalize : bool) :
  30 <= k -> kfeat mem seq k normalize = Raise ValueError.
Proof.
  intros Hk. unfold kfeat, kfeat_counts, np_zeros, np_size_limit.
  destruct (k <? 0) eqn:E; [lia|].
  assert (4 ^ 30 <= 4 ^ k) by (apply Z.pow_le_mono_r; lia).
  change (4 ^ 30) with (2 ^ 60) in *.
  destruct (2 ^ 60 <=? 4 ^ k) eqn:E1; [reflexivity|lia].
Qed.

(** The histogram of a sequence over the alphabet, for any [k >= 0]
    whose array can be allocated: [4^k] entries, entry [j] being the
    number of windows with index [j], and as many counts in total as
    there are windows. *)
Lemma kfeat_counts_spec (mem : Z) (seq : str) (k : Z) :
  nucleotides seq -> 0 <= k -> room mem k ->
  exists counts,
    kfeat_counts mem seq k = Ok counts /\
    Z.of_nat (length counts) = 4 ^ k /\
    sumZ counts = Z.max 0 (Z.of_nat (length seq) - k + 1) /\
    forall j : nat, (j < length counts)%nat ->
      counts !! j = Some (hits (Z.of_nat j) (windows seq k)).
Proof.
  intros Hseq Hk Hroom. unfold kfeat_counts.
  destruct (k <? 0) eqn:E; [lia|].
  rewrite (np_zeros_room mem k Hroom). cbn [bind].
  assert (H4 : 0 < 4 ^ k) by (apply Z.pow_pos_nonneg; lia).
  destruct (count_loop_spec seq k (range (Z.of_nat (length seq) - k + 1))
              (replicate (Z.to_nat (4 ^ k)) 0) Hk Hseq)
    as (ret' & Hloop & Hlen & Hsum & Hent).
  { intros i Hi. apply range_spec in Hi. lia. }
  { rewrite length_replicate. lia. }
  rewrite length_replicate in Hlen.
  exists ret'. split; [exact Hloop|].
  split; [lia|].
  split; [rewrite Hsum, sumZ_zeros, range_length; lia|].
  intros j Hj. rewrite (Hent j 0).
  - reflexivity.
  - apply lookup_replicate_2. lia.
Qed.



(** [kfeat] on a sequence over the alphabet returns a vector of [4^k]
    entries, for any [k >= 0] whose array can be allocated and either
    value of [normalize]. *)
Lemma kfeat_total (mem : Z) (seq : str) (k : Z) (normalize : bool) :
  nucleotides seq -> 0 <= k -> room mem k ->
  exists v, kfeat mem seq k normalize = Ok v /\ Z.of_nat (length v) = 4 ^ k.
Proof.
  intros Hseq Hk Hroom.
  destruct (kfeat_counts_spec mem seq k Hseq Hk Hroom) as (counts & Hc & Hlen & _).
  unfold kfeat. rewrite Hc. cbn [bind].
  destruct normalize; eexists; (split; [reflexivity|]);
    unfold np_divide; rewrite length_map; exact Hlen.
Qed.

Lemma nan_not_zero : PrimFloat.nan <> 0%float.
Proof.
  intros H. apply (f_equal PrimFloat.is_nan) in H. vm_compute in H. discriminate.
Qed.

(** C2. When the sequence has exactly [k - 1] characters, so that
    [number_of_kmers] is 0, [kfeat] with [normalize=True] does divide:
    every one of the [4^k] zero counts is divided by zero, and the
    vector returned (when [np.zeros(4 ** k)] can be allocated) is all
    [nan]; with or without room, the all-zero vector is not returned. *)
Theorem kfeat_degenerate_divides (mem : Z) (seq : str) (k : Z) :
  0 <= k -> Z.of_nat (length seq) - k + 1 = 0 ->
  (room mem k ->
   kfeat mem seq k true = Ok (replicate (Z.to_nat (4 ^ k)) PrimFloat.nan)) /\
  kfeat mem seq k true <> Ok (replicate (Z.to_nat (4 ^ k)) 0%float).
Proof.
  intros Hk Hn.
  assert (Hres : room mem k ->
                 kfeat mem seq k true = Ok (replicate (Z.to_nat (4 ^ k)) PrimFloat.nan)).
  { intros Hroom.
    unfold kfeat, kfeat_counts. destruct (k <? 0) eqn:E; [lia|].
    rewrite (np_zeros_room mem k Hroom). cbn [bind].
    rewrite Hn. change (range 0) with (@nil Z). cbn [count_loop bind].
    f_equal. unfold np_divide.
    induction (Z.to_nat (4 ^ k)) as [|n IH]; [reflexivity|].
    cbn [replicate List.map]. rewrite IH. reflexivity. }
  split; [exact Hres|].
  destruct (room_dec mem k) as [Hroom|Hroom];
    [|destruct (kfeat_no_room mem seq k true Hk Hroom) as [-> | ->]; discriminate].
  rewrite (Hres Hroom). intros H. injection H as H.
  assert (H4 : 0 < 4 ^ k) by (apply Z.pow_pos_nonneg; lia).
  destruct (Z.to_nat (4 ^ k)) as [|n] eqn:E4; [lia|].
  cbn [replicate] in H.
  apply (f_equal (fun l => List.hd 0%float l)) in H. exact (nan_not_zero H).
Qed.

Lemma kfeat_degenerate_divides_witness :
  kfeat example_mem (py "AC") 3 true = Ok (replicate 64 PrimFloat.nan) /\
  kfeat example_mem (py "AC") 3 true <> Ok (replicate 64 0%float).
Proof.
  destruct (kfeat_degenerate_divides example_mem (py "AC") 3) as [Hnan Hzero].
  - lia.
  - reflexivity.
  - split; [apply Hnan, example_room; lia|exact Hzero].
Defined.

(** With fewer than [k - 1] characters the divisor is negative and
    the zeros come out as negative zeros. *)
Example kfeat_shorter_negative_zero :
  kfeat example_mem (py "A") 3 true = Ok (replicate 64 PrimFloat.neg_zero).
Proof. vm_compute. reflexivity. Qed.

(** ** Sequence resolver *)

Lemma NUCFILT_is_nuc (c : ascii) : negb (NUCFILT c) = is_nuc c.
Proof.
  unfold NUCFILT, is_nuc. rewrite negb_involutive. cbn [existsb].
  destruct (Ascii.eqb c "A"), (Ascii.eqb c "T"), (Ascii.eqb c "C"), (Ascii.eqb c "G");
    reflexivity.
Qed.

Lemma NUCFILT_sub_filter (raw : str) : NUCFILT_sub raw = List.filter is_nuc raw.
Proof.
  unfold NUCFILT_sub. apply List.filter_ext. intros c. apply NUCFILT_is_nuc.
Qed.

Lemma NUCFILT_sub_nucleotides (raw : str) : nucleotides (NUCFILT_sub raw).
Proof.
  rewrite NUCFILT_sub_filter. unfold nucleotides. apply List.Forall_forall.
  intros c Hc. apply List.filter_In in Hc. tauto.
Qed.

Lemma get_features_fetched (mem : Z) (fetch : accessor) (chrom : str) (start end_ : Z)
  (ref_fn raw : str) (k : Z) (normalize : bool) :
  fetch ref_fn chrom start end_ = Ok raw ->
  get_features fetch mem (chrom, start, end_) ref_fn k normalize =
    kfeat mem (NUCFILT_sub raw) k normalize.
Proof. intros H. unfold get_features. rewrite H. reflexivity. Qed.

Lemma get_features_raise (mem : Z) (fetch : accessor) (chrom : str) (start end_ : Z)
  (ref_fn : str) (k : Z) (normalize : bool) (e : exn) :
  0 <= k -> room mem k ->
  (get_features fetch mem (chrom, start, end_) ref_fn k normalize = Raise e <->
   fetch ref_fn chrom start end_ = Raise e).
Proof.
  intros Hk Hroom. unfold get_features.
  destruct (fetch ref_fn chrom start end_) as [raw|e'] eqn:Hf; cbn [bind].
  - destruct (kfeat_total mem (NUCFILT_sub raw) k normalize
                (NUCFILT_sub_nucleotides raw) Hk Hroom) as (v & -> & _).
    split; discriminate.
  - split; intros H; injection H as ->; reflexivity.
Qed.

(** C6. [get_features] counts over the fetched sequence with every
    character outside {A,G,C,T} removed, the remaining characters
    closing up: the result is [kfeat] of the filtered string. For the
    fetched sequence "ACNGT" and k=2 the counting is over "ACGT", whose
    windows are the three strings AC, CG, GT, each counted once (the
    16 entries of the array being allocated). *)
Theorem get_features_filters (mem : Z) :
  (forall (fetch : accessor) chrom start end_ ref_fn raw k normalize,
     fetch ref_fn chrom start end_ = Ok raw ->
     get_features fetch mem (chrom, start, end_) ref_fn k normalize =
       kfeat mem (List.filter is_nuc raw) k normalize) /\
  (forall raw : str, NUCFILT_sub raw = List.filter is_nuc raw) /\
  NUCFILT_sub (py "ACNGT") = py "ACGT" /\
  windows (NUCFILT_sub (py "ACNGT")) 2 = [py "AC"; py "CG"; py "GT"] /\
  (kmer_index (py "AC") = Ok 8 /\ kmer_index (py "CG") = Ok 6 /\
   kmer_index (py "GT") = Ok 13) /\
  (room mem 2 ->
   forall (fetch : accessor) chrom start end_ ref_fn,
     fetch ref_fn chrom start end_ = Ok (py "ACNGT") ->
     get_features fetch mem (chrom, start, end_) ref_fn 2 false =
       Ok (List.map to_float [0; 0; 0; 0; 0; 0; 1; 0; 1; 0; 0; 0; 0; 1; 0; 0])).
Proof.
  split.
  { intros fetch chrom start end_ ref_fn raw k normalize H.
    rewrite (get_features_fetched mem _ _ _ _ _ raw) by exact H.
    rewrite NUCFILT_sub_filter. reflexivity. }
  split; [exact NUCFILT_sub_filter|].
  split; [reflexivity|].
  split; [reflexivity|].
  split; [repeat split; reflexivity|].
  intros Hroom fetch chrom start end_ ref_fn H.
  rewrite (get_features_fetched mem _ _ _ _ _ (py "ACNGT")) by exact H.
  unfold kfeat, kfeat_counts. change (2 <? 0) with false. cbv iota.
  rewrite (np_zeros_room mem 2 Hroom). vm_compute. reflexivity.
Qed.

Lemma get_features_filters_witness :
  get_features (fun _ _ _ _ => Ok (py "ACNGT")) example_mem (py "chr1", 0, 5) (py "ref.fa")
    2 false =
    Ok (List.map to_float [0; 0; 0; 0; 0; 0; 1; 0; 1; 0; 0; 0; 0; 1; 0; 0]).
Proof.
  apply (proj2 (proj2 (proj2 (proj2 (proj2 (get_features_filters example_mem)))))).
  - apply example_room. lia.
  - reflexivity.
Defined.

(** ** [kfeats] *)

Lemma kfeats_char (depth : nat) (c : ascii) (k : Z) (normalize : bool) :
  kfeats depth (PStr [c]) k normalize = Raise RecursionError.
Proof.
  induction depth as [|d IH]; [reflexivity|].
  cbn [kfeats py_iter List.map map_result]. rewrite IH. reflexivity.
Qed.

Lemma kfeats_str (depth : nat) (c : ascii) (s : str) (k : Z) (normalize : bool) :
  kfeats depth (PStr (c :: s)) k normalize = Raise RecursionError.
Proof.
  destruct depth as [|d]; [reflexivity|].
  cbn [kfeats py_iter List.map map_result]. rewrite kfeats_char. reflexivity.
Qed.

(** C10. On a non-empty list of non-empty sequences [kfeats] returns
    no array: whatever the recursion limit, the call ends in
    [RecursionError], because the comprehension calls [kfeats] again,
    not [kfeat], on each sequence and then on each character. In
    particular the result is not the stack of [kfeat] rows. *)
Theorem kfeats_never_returns (mem : Z) (depth : nat) (seqs : list str) (k : Z) (normalize : bool) :
  seqs <> [] -> (forall s, In s seqs -> s <> []) ->
  kfeats depth (PList (List.map PStr seqs)) k normalize = Raise RecursionError /\
  forall rows, kfeats_rows mem seqs k normalize = Ok rows ->
    kfeats depth (PList (List.map PStr seqs)) k normalize <> Ok (Stack (List.map Vec rows)).
Proof.
  intros Hne Hall.
  assert (H : kfeats depth (PList (List.map PStr seqs)) k normalize = Raise RecursionError).
  { destruct depth as [|d]; [reflexivity|].
    destruct seqs as [|s rest]; [congruence|].
    destruct s as [|c s]; [exfalso; apply (Hall []); [left|]; reflexivity|].
    cbn [kfeats py_iter List.map map_result]. rewrite kfeats_str. reflexivity. }
  split; [exact H|]. intros rows _. rewrite H. discriminate.
Qed.

Lemma kfeats_never_returns_witness :
  kfeats 1000 (PList [PStr (py "ACGT"); PStr (py "GATTACA")]) 3 true = Raise RecursionError /\
  kfeats_rows example_mem [py "ACGT"; py "GATTACA"] 3 true <> Raise RecursionError.
Proof.
  split.
  - apply (kfeats_never_returns example_mem 1000 [py "ACGT"; py "GATTACA"] 3 true).
    + discriminate.
    + intros s [<- | [<- | []]]; discriminate.
  - vm_compute. discriminate.
Defined.

(** ** The pool *)

Lemma map_result_app {A B} (f : A -> result B) (xs ys : list A) :
  map_result f (xs ++ ys) =
    (xs' <- map_result f xs ;; ys' <- map_result f ys ;; Ok (xs' ++ ys')).
Proof.
  induction xs as [|x xs IH]; cbn [app map_result].
  - destruct (map_result f ys); reflexivity.
  - destruct (f x) as [y|e]; cbn [bind]; [|reflexivity].
    rewrite IH. destruct (map_result f xs) as [xs'|e]; cbn [bind]; [|reflexivity].
    destruct (map_result f ys); reflexivity.
Qed.

Lemma map_result_raise_inv {A B} (f : A -> result B) (xs : list A) (e : exn) :
  map_result f xs = Raise e -> exists x, In x xs /\ f x = Raise e.
Proof.
  induction xs as [|x xs IH]; cbn [map_result]; [discriminate|].
  destruct (f x) as [y|e'] eqn:Hx; cbn [bind].
  - destruct (map_result f xs) as [ys|e'] eqn:Hxs; cbn [bind]; [discriminate|].
    intros H. injection H as ->. destruct IH as (z & Hz & Hfz); [reflexivity|].
    exists z. split; [right; exact Hz|exact Hfz].
  - intros H. injection H as ->. exists x. split; [left; reflexivity|exact Hx].
Qed.

Lemma map_result_concat_ok {A B} (f : A -> result B) (bs : list (list A)) (ys : list B) :
  map_result f (concat bs) = Ok ys ->
  exists rs, List.map (map_result f) bs = List.map Ok rs /\ concat rs = ys.
Proof.
  revert ys. induction bs as [|b bs IH]; intros ys; cbn [concat].
  - cbn. intros H. injection H as <-. exists []. split; reflexivity.
  - rewrite map_result_app.
    destruct (map_result f b) as [r|e] eqn:Hb; cbn [bind]; [|discriminate].
    destruct (map_result f (concat bs)) as [rest|e] eqn:Hbs; cbn [bind]; [|discriminate].
    intros H. injection H as <-. destruct (IH rest eq_refl) as (rs & Hrs & Hc).
    exists (r :: rs). cbn [List.map concat]. rewrite Hb, Hrs, Hc. split; reflexivity.
Qed.

Lemma map_result_concat_raise {A B} (f : A -> result B) (bs : list (list A)) (e : exn) :
  map_result f (concat bs) = Raise e ->
  exists (i : nat) (e' : exn), List.map (map_result f) bs !! i = Some (Raise e').
Proof.
  revert e. induction bs as [|b bs IH]; intros e; cbn [concat]; [discriminate|].
  rewrite map_result_app.
  destruct (map_result f b) as [r|e'] eqn:Hb; cbn [bind].
  - destruct (map_result f (concat bs)) as [rest|e'] eqn:Hbs; cbn [bind]; [discriminate|].
    intros _. destruct (IH e' eq_refl) as (i & e2 & Hi).
    exists (S i), e2. exact Hi.
  - intros _. exists O, e'. cbn [List.map]. rewrite Hb. reflexivity.
Qed.

Lemma chunksize_pos (nproc : Z) (len : nat) :
  1 <= nproc -> (0 < len)%nat -> (0 < Pool.chunksize nproc len)%nat.
Proof.
  intros Hn Hlen. unfold Pool.chunksize.
  destruct (len =? 0)%nat eqn:E; [apply Nat.eqb_eq in E; lia|].
  pose proof (Z.div_mod (Z.of_nat len) (nproc * 4) ltac:(lia)) as Hdm.
  pose proof (Z.mod_pos_bound (Z.of_nat len) (nproc * 4) ltac:(lia)) as Hm.
  pose proof (Z.div_pos (Z.of_nat len) (nproc * 4) ltac:(lia) ltac:(lia)) as Hq.
  destruct (Z.of_nat len mod (nproc * 4) =? 0) eqn:Er; [|lia].
  apply Z.eqb_eq in Er. rewrite Er in Hdm.
  assert (0 < Z.of_nat len / (nproc * 4)) by nia. lia.
Qed.

Lemma get_tasks_concat {A} (fuel size : nat) (it : list A) :
  (0 < size)%nat -> (length it < fuel)%nat ->
  concat (Pool.get_tasks fuel size it) = it.
Proof.
  intros Hsize. revert it. induction fuel as [|fuel IH]; intros it Hlen; [lia|].
  cbn [Pool.get_tasks]. destruct (firstn size it) as [|a l] eqn:E.
  - destruct it as [|x it]; [reflexivity|].
    destruct size; [lia|discriminate].
  - cbn [concat]. rewrite IH.
    + rewrite <- E. apply firstn_skipn.
    + rewrite length_skipn. destruct it as [|x it]; [destruct size; discriminate|].
      cbn [length] in *. lia.
Qed.

Lemma tasks_concat {A} (nproc : Z) (xs : list A) :
  1 <= nproc -> concat (Pool.tasks nproc xs) = xs.
Proof.
  intros Hn. unfold Pool.tasks. destruct xs as [|x xs].
  - reflexivity.
  - apply get_tasks_concat; [apply chunksize_pos; cbn [length]; lia|lia].
Qed.

Lemma deliver_failed {B} (outcomes : list (result (list B))) (sched : list nat) (e : exn) :
  fold_left (Pool.deliver outcomes) sched (Pool.Failed e) = Pool.Failed e.
Proof.
  induction sched as [|j rest IH]; [reflexivity|].
  cbn [fold_left]. unfold Pool.deliver at 2.
  destruct (outcomes !! j); cbn [Pool.set]; exact IH.
Qed.

Lemma lookup_map_Ok {B} (rs : list (list B)) (j : nat) :
  List.map Ok rs !! j = match rs !! j with
                        | Some ys => Some (Ok ys)
                        | None => None
                        end.
Proof.
  revert j. induction rs as [|r rs IH]; intros [|j]; cbn; try reflexivity.
  apply IH.
Qed.

(** When every batch succeeds, delivery fills the slot of each batch
    named by the schedule and leaves the others as they were. *)
Lemma deliver_ok {B} (rs : list (list B)) (sched : list nat)
  (slots : list (option (list B))) :
  length slots = length rs ->
  exists slots',
    fold_left (Pool.deliver (List.map Ok rs)) sched (Pool.Collecting slots)
      = Pool.Collecting slots' /\
    length slots' = length slots /\
    forall (i : nat) (ys : list B), rs !! i = Some ys ->
      (In i sched -> slots' !! i = Some (Some ys)) /\
      (~ In i sched -> slots' !! i = slots !! i).
Proof.
  revert slots. induction sched as [|j rest IH]; intros slots Hlen.
  - exists slots. cbn. repeat split; tauto.
  - cbn [fold_left]. unfold Pool.deliver at 2. rewrite lookup_map_Ok.
    destruct (rs !! j) as [yj|] eqn:Hj; cbn [Pool.set].
    + destruct (IH (<[j := Some yj]> slots)) as (slots' & Hfold & Hl & Hent).
      { rewrite length_insert. exact Hlen. }
      exists slots'. split; [exact Hfold|].
      split; [rewrite Hl; apply length_insert|].
      intros i ys Hi. destruct (Hent i ys Hi) as [Hin Hout].
      assert (Hjl : (j < length slots)%nat).
      { rewrite Hlen. apply lookup_lt_Some in Hj. exact Hj. }
      split.
      * intros [<- | Hr].
        -- destruct (in_dec Nat.eq_dec j rest) as [Hr|Hr]; [exact (Hin Hr)|].
           rewrite (Hout Hr), list_lookup_insert_eq by exact Hjl. congruence.
        -- exact (Hin Hr).
      * intros Hnot. rewrite Hout by (intros Hr; apply Hnot; right; exact Hr).
        apply list_lookup_insert_ne. intros ->. apply Hnot. left. reflexivity.
    + destruct (IH slots Hlen) as (slots' & Hfold & Hl & Hent).
      exists slots'. split; [exact Hfold|]. split; [exact Hl|].
      intros i ys Hi. destruct (Hent i ys Hi) as [Hin Hout].
      split.
      * intros [<- | Hr]; [congruence|exact (Hin Hr)].
      * intros Hnot. apply Hout. intros Hr. apply Hnot. right. exact Hr.
Qed.

(** When some delivered batch raised, the pending result ends up
    failed, with an exception that one of the batches raised. *)
Lemma deliver_raise {B} (outcomes : list (result (list B))) (sched : list nat)
  (slots : list (option (list B))) (i : nat) (e : exn) :
  In i sched -> outcomes !! i = Some (Raise e) ->
  exists (j : nat) (e' : exn),
    outcomes !! j = Some (Raise e') /\
    fold_left (Pool.deliver outcomes) sched (Pool.Collecting slots) = Pool.Failed e'.
Proof.
  revert slots. induction sched as [|j rest IH]; intros slots Hin Hi; [destruct Hin|].
  cbn [fold_left]. unfold Pool.deliver at 2.
  destruct (outcomes !! j) as [[ys|e1]|] eqn:Hj; cbn [Pool.set].
  - destruct Hin as [-> | Hin]; [congruence|]. apply IH; assumption.
  - exists j, e1. split; [exact Hj|apply deliver_failed].
  - destruct Hin as [-> | Hin]; [congruence|]. apply IH; assumption.
Qed.

Lemma flat_map_slots {B} (rs : list (list B)) :
  flat_map (fun slot : option (list B) => match slot with
                                          | Some ys => ys
                                          | None => []
                                          end) (List.map Some rs) = concat rs.
Proof.
  induction rs as [|r rs IH]; cbn; [reflexivity|]. rewrite IH. reflexivity.
Qed.

(** [Pool.map] under any schedule and any number of workers returns
    what the sequential comprehension returns, when that succeeds. *)
Lemma pool_map_ok {A B} (nproc : Z) (sched : list nat) (f : A -> result B)
  (xs : list A) (ys : list B) :
  1 <= nproc -> Pool.schedule nproc xs sched ->
  map_result f xs = Ok ys ->
  Pool.map nproc sched f xs = Ok ys.
Proof.
  intros Hn Hsched Hseq. unfold Pool.map.
  destruct (nproc <? 1) eqn:E; [lia|].
  unfold Pool.schedule in Hsched.
  set (batches := Pool.tasks nproc xs) in *.
  rewrite <- (tasks_concat nproc xs Hn) in Hseq. fold batches in Hseq.
  destruct (map_result_concat_ok f batches ys Hseq) as (rs & Hrs & Hc).
  assert (Hlen : length rs = length batches).
  { apply (f_equal (@length _)) in Hrs. rewrite !length_map in Hrs. lia. }
  rewrite Hrs.
  destruct (deliver_ok rs sched (replicate (length batches) None))
    as (slots' & Hfold & Hl & Hent).
  { rewrite length_replicate. lia. }
  rewrite Hfold. cbn [Pool.get]. rewrite length_replicate in Hl.
  assert (Hslots : slots' = List.map Some rs).
  { apply list_eq. intros i.
    destruct (rs !! i) as [r|] eqn:Hi.
    - destruct (Hent i r Hi) as [Hin _]. rewrite Hin.
      + symmetry. change (@List.map (list B) (option (list B))) with (@fmap list _ (list B) (option (list B))).
        rewrite list_lookup_fmap, Hi. reflexivity.
      + apply (Permutation_in i (Permutation_sym Hsched)).
        apply in_seq. apply lookup_lt_Some in Hi. lia.
    - apply lookup_ge_None in Hi.
      rewrite (proj2 (lookup_ge_None slots' i)) by lia.
      symmetry. apply lookup_ge_None. rewrite length_map. lia. }
  rewrite Hslots, flat_map_slots, Hc. reflexivity.
Qed.

(** When the sequential comprehension raises, [Pool.map] raises too,
    with the exception of one of the items. *)
Lemma pool_map_raise {A B} (nproc : Z) (sched : list nat) (f : A -> result B)
  (xs : list A) (e : exn) :
  1 <= nproc -> Pool.schedule nproc xs sched ->
  map_result f xs = Raise e ->
  exists (x : A) (e' : exn),
    In x xs /\ f x = Raise e' /\ Pool.map nproc sched f xs = Raise e'.
Proof.
  intros Hn Hsched Hseq. unfold Pool.map.
  destruct (nproc <? 1) eqn:E; [lia|].
  unfold Pool.schedule in Hsched.
  set (batches := Pool.tasks nproc xs) in *.
  pose proof (tasks_concat nproc xs Hn) as Hcat. fold batches in Hcat.
  rewrite <- Hcat in Hseq.
  destruct (map_result_concat_raise f batches e Hseq) as (i & e0 & Hi).
  destruct (deliver_raise (List.map (map_result f) batches) sched
              (replicate (length batches) None) i e0) as (j & e' & Hj & Hfold).
  { apply (Permutation_in i (Permutation_sym Hsched)). apply in_seq.
    apply lookup_lt_Some in Hi. rewrite length_map in Hi. lia. }
  { exact Hi. }
  rewrite Hfold. cbn [Pool.get].
  change (@List.map (list A) (result (list B))) with (@fmap list _ (list A) (result (list B))) in Hj.
  rewrite list_lookup_fmap in Hj.
  destruct (batches !! j) as [b|] eqn:Hb; [|discriminate].
  cbn in Hj. injection Hj as Hj.
  destruct (map_result_raise_inv f b e' Hj) as (x & Hx & Hfx).
  exists x, e'. split; [|split; [exact Hfx|reflexivity]].
  rewrite <- Hcat. apply in_concat. exists b. split; [|exact Hx].
  apply list_elem_of_In. apply list_elem_of_lookup. exists j. exact Hb.
Qed.

(** ** Parallel orchestrator *)

Lemma map_result_total {A B} (f : A -> result B) (P : B -> Prop) (xs : list A) :
  (forall x, In x xs -> exists y, f x = Ok y /\ P y) ->
  exists ys, map_result f xs = Ok ys /\
             Forall2 (fun x y => f x = Ok y) xs ys /\ Forall P ys.
Proof.
  induction xs as [|x xs IH]; intros H.
  - exists []. repeat split; constructor.
  - destruct (H x) as (y & Hy & Py); [left; reflexivity|].
    destruct IH as (ys & Hys & HF & HP); [intros z Hz; apply H; right; exact Hz|].
    exists (y :: ys). cbn [map_result]. rewrite Hy, Hys.
    repeat split; constructor; assumption.
Qed.

Lemma np_vstack1_uniform (rows : list (list float)) (n : nat) :
  Forall (fun row => length row = n) rows ->
  np_vstack1 rows = Ok match rows with
                       | [] => [[]]
                       | _ => rows
                       end.
Proof.
  intros H. destruct rows as [|r rest]; [reflexivity|].
  cbn [np_vstack1]. inversion H as [|? ? Hr Hrest]; subst.
  rewrite (proj2 (forallb_forall _ rest)); [reflexivity|].
  intros r' Hr'. rewrite List.Forall_forall in Hrest.
  apply Nat.eqb_eq. exact (Hrest r' Hr').
Qed.

(** The orchestrator against the sequential comprehension over
    [get_features]. *)
Lemma regions_to_kmers_seq (mem : Z) (fetch : accessor) (sched : list nat)
  (regions : list region) (reference : str) (k nproc : Z) :
  1 <= nproc -> Pool.schedule nproc regions sched ->
  match map_result (fun reg => get_features fetch mem reg reference k true) regions with
  | Ok rows =>
      regions_to_kmers fetch mem sched regions reference k nproc = np_vstack1 rows
  | Raise _ =>
      exists (reg : region) (e : exn),
        In reg regions /\
        get_features fetch mem reg reference k true = Raise e /\
        regions_to_kmers fetch mem sched regions reference k nproc = Raise e
  end.
Proof.
  intros Hn Hsched. unfold regions_to_kmers.
  destruct (map_result _ regions) as [rows|e] eqn:Hseq.
  - rewrite (pool_map_ok nproc sched _ regions rows Hn Hsched Hseq). reflexivity.
  - destruct (pool_map_raise nproc sched _ regions e Hn Hsched Hseq)
      as (reg & e' & Hin & Hf & Hmap).
    exists reg, e'. rewrite Hmap. repeat split; assumption.
Qed.

(** C1. Whatever the number of workers and the order in which the
    workers hand back their batches, [regions_to_kmers] returns the
    same matrix as a run with one worker; and when the reference
    resolves every region, with a [k >= 0] for which [np.zeros(4 ** k)]
    can be allocated, the matrix is returned and its row [i] is the
    feature vector, of [4^k] entries, of region [i]. *)
Theorem regions_to_kmers_order (mem : Z) (fetch : accessor) (regions : list region)
  (reference : str) (k nproc : Z) (sched1 schedN : list nat) :
  1 <= nproc ->
  Pool.schedule 1 regions sched1 -> Pool.schedule nproc regions schedN ->
  (forall feats,
     regions_to_kmers fetch mem sched1 regions reference k 1 = Ok feats <->
     regions_to_kmers fetch mem schedN regions reference k nproc = Ok feats) /\
  (0 <= k -> room mem k ->
   (forall chrom start end_, In (chrom, start, end_) regions ->
      exists raw, fetch reference chrom start end_ = Ok raw) ->
   exists feats,
     regions_to_kmers fetch mem sched1 regions reference k 1 = Ok feats /\
     regions_to_kmers fetch mem schedN regions reference k nproc = Ok feats /\
     (regions <> [] -> length feats = length regions) /\
     forall (i : nat) (reg : region), regions !! i = Some reg ->
       exists row, feats !! i = Some row /\
                   get_features fetch mem reg reference k true = Ok row /\
                   Z.of_nat (length row) = 4 ^ k).
Proof.
  intros Hn H1 HN.
  pose proof (regions_to_kmers_seq mem fetch sched1 regions reference k 1 ltac:(lia) H1) as S1.
  pose proof (regions_to_kmers_seq mem fetch schedN regions reference k nproc Hn HN) as SN.
  split.
  - intros feats.
    destruct (map_result _ regions) as [rows|e].
    + rewrite S1, SN. reflexivity.
    + destruct S1 as (? & ? & _ & _ & ->). destruct SN as (? & ? & _ & _ & ->).
      split; discriminate.
  - intros Hk Hroom Hfetch.
    destruct (map_result_total (fun reg => get_features fetch mem reg reference k true)
                (fun row => length row = Z.to_nat (4 ^ k)) regions)
      as (rows & Hrows & HF & HP).
    { intros [[chrom start] end_] Hin. destruct (Hfetch chrom start end_ Hin) as (raw & Hraw).
      rewrite (get_features_fetched mem _ _ _ _ _ raw) by exact Hraw.
      destruct (kfeat_total mem (NUCFILT_sub raw) k true (NUCFILT_sub_nucleotides raw) Hk Hroom)
        as (v & Hv & Hl).
      exists v. split; [exact Hv|lia]. }
    rewrite Hrows in S1, SN.
    rewrite (np_vstack1_uniform rows _ HP) in S1, SN.
    eexists. split; [exact S1|]. split; [exact SN|].
    pose proof (Forall2_length _ _ _ HF) as Hlen.
    split.
    + intros Hne. destruct rows as [|r rows]; [|lia].
      destruct regions; [congruence|discriminate].
    + intros i reg Hi.
      destruct (Forall2_lookup_l _ _ _ _ _ HF Hi) as (row & Hrow & Hget).
      exists row. destruct rows as [|r rows]; [discriminate|].
      split; [exact Hrow|]. split; [exact Hget|].
      rewrite List.Forall_forall in HP.
      assert (0 < 4 ^ k) by (apply Z.pow_pos_nonneg; lia).
      rewrite (HP row); [lia|].
      apply list_elem_of_In, list_elem_of_lookup. exists i. exact Hrow.
Qed.

Lemma regions_to_kmers_order_witness :
  (forall feats,
     regions_to_kmers example_reference example_mem [1; 2; 0]%nat example_batch (py "ref.fa") 2 1
       = Ok feats <->
     regions_to_kmers example_reference example_mem [4; 3; 2; 1; 0]%nat example_batch (py "ref.fa") 2 2
       = Ok feats) /\
  exists feats,
    regions_to_kmers example_reference example_mem [1; 2; 0]%nat example_batch (py "ref.fa") 2 1
      = Ok feats /\
    regions_to_kmers example_reference example_mem [4; 3; 2; 1; 0]%nat example_batch (py "ref.fa") 2 2
      = Ok feats /\
    (example_batch <> [] -> length feats = length example_batch) /\
    forall (i : nat) (reg : region), example_batch !! i = Some reg ->
      exists row, feats !! i = Some row /\
                  get_features example_reference example_mem reg (py "ref.fa") 2 true = Ok row /\
                  Z.of_nat (length row) = 4 ^ 2.
Proof.
  assert (H1 : Pool.schedule 1 example_batch [1; 2; 0]%nat).
  { apply Permutation_sym. exact (Permutation_cons_append [1; 2]%nat 0%nat). }
  assert (HN : Pool.schedule 2 example_batch [4; 3; 2; 1; 0]%nat).
  { apply Permutation_sym. exact (Permutation_rev [0; 1; 2; 3; 4]%nat). }
  destruct (regions_to_kmers_order example_mem example_reference example_batch (py "ref.fa") 2 2
              [1; 2; 0]%nat [4; 3; 2; 1; 0]%nat ltac:(lia) H1 HN) as [HA HB].
  split; [exact HA|]. apply HB; [lia|apply example_room; lia|].
  intros chrom start end_ Hin. cbn in Hin.
  destruct Hin as [H | [H | [H | [H | [H | []]]]]]; injection H as <- <- <-;
    eexists; reflexivity.
Defined.



(** C4, with raw counts as the rows, does not hold: on the example
    regions with k=1 the rows [regions_to_kmers] returns are not the
    counts 4,2,2,2 and 1,1,1,0. *)
Lemma regions_to_kmers_raw_counts_counterexample :
  regions_to_kmers example_reference example_mem [0; 1]%nat example_regions (py "ref.fa") 1 1
  <> Ok [List.map to_float [4; 2; 2; 2]; List.map to_float [1; 1; 1; 0]].
Proof.
  intros H.
  apply (f_equal (fun r => match r with
                           | Ok ((x :: _) :: _) => PrimFloat.eqb x 4
                           | _ => true
                           end)) in H.
  vm_compute in H. discriminate.
Qed.

(** What [np.vstack([rows])] returns, when it returns. *)
Lemma np_vstack1_rows (rows feats : list (list float)) :
  np_vstack1 rows = Ok feats ->
  (rows = [] /\ feats = [[]]) \/ (rows <> [] /\ feats = rows).
Proof.
  destruct rows as [|r rest]; cbn [np_vstack1].
  - intros H. injection H as <-. left. split; reflexivity.
  - destruct (forallb _ rest); [|discriminate].
    intros H. injection H as <-. right. split; [discriminate|reflexivity].
Qed.

(** C4. [regions_to_kmers] takes the regions, the reference,
    [k] and the number of workers, and no [normalize] flag: it always
    featurizes with [normalize=True]. Whatever the regions, [k], the
    number of workers and the order of delivery, it returns a matrix
    exactly when [get_features] with [normalize=True] returns a row for
    every region and the rows stack, the matrix being that stack: its
    row [i] is [get_features] of region [i] with [normalize=True]. On
    the two example regions with k=1 (the four entries of each array
    being allocated) it returns the frequencies 4/10, 2/10, 2/10, 2/10
    (A, G, C, T at indices 0, 1, 2, 3) and 1/3, 1/3, 1/3, 0/3. The raw
    counts 4,2,2,2 and 1,1,1,0 are what [get_features] returns for the
    two regions with [normalize=False]. *)
Theorem regions_to_kmers_normalizes (mem : Z) (fetch : accessor) (reference : str)
  (nproc : Z) :
  1 <= nproc ->
  (forall (regions : list region) (k : Z) (sched : list nat) (feats : list (list float)),
     Pool.schedule nproc regions sched ->
     (regions_to_kmers fetch mem sched regions reference k nproc = Ok feats <->
      exists rows,
        map_result (fun reg => get_features fetch mem reg reference k true) regions = Ok rows /\
        np_vstack1 rows = Ok feats) /\
     (regions_to_kmers fetch mem sched regions reference k nproc = Ok feats ->
      forall (i : nat) (reg : region), regions !! i = Some reg ->
        exists row, feats !! i = Some row /\
                    get_features fetch mem reg reference k true = Ok row)) /\
  (room mem 1 ->
   fetch reference (py "chr1") 0 10 = Ok (py "ACGTACGTAA") ->
   fetch reference (py "chr1") 100 105 = Ok (py "ACG") ->
   (forall sched : list nat, Pool.schedule nproc example_regions sched ->
      regions_to_kmers fetch mem sched example_regions reference 1 nproc =
        Ok [[4 / 10; 2 / 10; 2 / 10; 2 / 10]; [1 / 3; 1 / 3; 1 / 3; 0 / 3]]%float) /\
   get_features fetch mem (py "chr1", 0, 10) reference 1 false =
     Ok [4; 2; 2; 2]%float /\
   get_features fetch mem (py "chr1", 100, 105) reference 1 false =
     Ok [1; 1; 1; 0]%float) /\
  (kmer_index (py "A") = Ok 0 /\ kmer_index (py "G") = Ok 1 /\
   kmer_index (py "C") = Ok 2 /\ kmer_index (py "T") = Ok 3).
Proof.
  intros Hn. split; [|split; [|repeat split; reflexivity]].
  - intros regions k sched feats Hsched.
    pose proof (regions_to_kmers_seq mem fetch sched regions reference k nproc Hn Hsched) as S.
    assert (Hiff : regions_to_kmers fetch mem sched regions reference k nproc = Ok feats <->
                   exists rows,
                     map_result (fun reg => get_features fetch mem reg reference k true) regions
                       = Ok rows /\
                     np_vstack1 rows = Ok feats).
    { destruct (map_result _ regions) as [rows|e].
      - rewrite S. split.
        + intros H. exists rows. split; [reflexivity|exact H].
        + intros (rows' & Hrows' & H). injection Hrows' as <-. exact H.
      - destruct S as (? & ? & _ & _ & ->). split; [discriminate|].
        intros (rows' & Hrows' & _). discriminate. }
    split; [exact Hiff|].
    intros Hres i reg Hi. apply Hiff in Hres. destruct Hres as (rows & Hrows & Hstack).
    pose proof (map_result_inv _ _ _ Hrows) as HF.
    destruct (Forall2_lookup_l _ _ _ _ _ HF Hi) as (row & Hrow & Hget).
    exists row. split; [|exact Hget].
    destruct (np_vstack1_rows rows feats Hstack) as [[-> _] | [_ ->]];
      [discriminate|exact Hrow].
  - intros Hroom Hf1 Hf2.
    assert (Hz : np_zeros mem 4 = Ok [0; 0; 0; 0]).
    { exact (np_zeros_room mem 1 Hroom). }
    split; [|unfold get_features, kfeat, kfeat_counts; rewrite Hf1, Hf2;
             change (4 ^ 1) with 4; cbn [bind]; change (1 <? 0) with false; cbv iota;
             rewrite Hz; split; vm_compute; reflexivity].
    intros sched Hsched.
    pose proof (regions_to_kmers_seq mem fetch sched example_regions reference 1 nproc
                  Hn Hsched) as S.
    unfold example_regions in *. cbn [map_result get_features] in S.
    rewrite Hf1, Hf2 in S. cbn [bind] in S.
    unfold kfeat, kfeat_counts in S. change (4 ^ 1) with 4 in S.
    change (1 <? 0) with false in S. cbv iota in S. rewrite Hz in S.
    rewrite S. vm_compute. reflexivity.
Qed.

Lemma regions_to_kmers_normalizes_witness :
  regions_to_kmers example_reference example_mem [1; 0]%nat example_regions (py "ref.fa") 1 4 =
    Ok [[4 / 10; 2 / 10; 2 / 10; 2 / 10]; [1 / 3; 1 / 3; 1 / 3; 0 / 3]]%float /\
  forall (i : nat) (reg : region), example_regions !! i = Some reg ->
    exists row,
      [[4 / 10; 2 / 10; 2 / 10; 2 / 10]; [1 / 3; 1 / 3; 1 / 3; 0 / 3]]%float !! i = Some row /\
      get_features example_reference example_mem reg (py "ref.fa") 1 true = Ok row.
Proof.
  destruct (regions_to_kmers_normalizes example_mem example_reference (py "ref.fa") 4
              ltac:(lia)) as (Hall & Hex & _).
  split.
  - apply Hex.
    + apply example_room. lia.
    + reflexivity.
    + reflexivity.
    + apply Permutation_sym. exact (Permutation_rev [0; 1]%nat).
  - apply (Hall example_regions 1 [1; 0]%nat).
    + apply Permutation_sym. exact (Permutation_rev [0; 1]%nat).
    + vm_compute. reflexivity.
Defined.

(** ** Normalized entries

    With at least one window, each entry of the normalized vector is
    the binary64 quotient of a count by the number of windows, the
    counts adding up to that number. The quotients are rounded; the
    lemmas below follow the rounding of [SpecFloat] on mantissas of 53
    and 54 bits to bound the error of each quotient by [2^-51] of its
    value, so that the entries add up to 1 within [2^-51]. *)













Lemma to_float_zero_SF : Prim2SF (to_float 0) = S754_zero false.
Proof. reflexivity. Qed.












(** * Further properties of the code *)

(** ** K-mer encoder: decoding, concatenation, padding, first error *)

Lemma nuc_of_code_nuc (c : Z) : is_nuc (nuc_of_code c) = true.
Proof.
  unfold nuc_of_code.
  destruct (c =? 0); [reflexivity|]. destruct (c =? 1); [reflexivity|].
  destruct (c =? 2); reflexivity.
Qed.

Lemma code_nuc_of_code (c : Z) : 0 <= c < 4 -> code (nuc_of_code c) = c.
Proof.
  intros H. assert (c = 0 \/ c = 1 \/ c = 2 \/ c = 3) as [-> | [-> | [-> | ->]]] by lia;
    reflexivity.
Qed.

Lemma kmer_of_index_length (k : nat) (idx : Z) : length (kmer_of_index k idx) = k.
Proof.
  revert idx. induction k as [|k IH]; intros idx; [reflexivity|].
  cbn [kmer_of_index length]. rewrite IH. reflexivity.
Qed.

Lemma kmer_of_index_nucleotides (k : nat) (idx : Z) : nucleotides (kmer_of_index k idx).
Proof.
  revert idx. induction k as [|k IH]; intros idx; [constructor|].
  cbn [kmer_of_index]. constructor; [apply nuc_of_code_nuc|apply IH].
Qed.

Lemma kmer_of_index_sigma (k : nat) (idx : Z) :
  0 <= idx < 4 ^ Z.of_nat k ->
  sigma 0 (List.map code (kmer_of_index k idx)) = idx.
Proof.
  revert idx. induction k as [|k IH]; intros idx Hidx.
  - cbn in *. lia.
  - cbn [kmer_of_index List.map]. rewrite sigma_cons.
    rewrite Nat2Z.inj_succ, Z.pow_succ_r in Hidx by lia.
    pose proof (Z.mod_pos_bound idx 4 ltac:(lia)) as Hm.
    pose proof (Z.div_mod idx 4 ltac:(lia)) as Hdm.
    rewrite code_nuc_of_code by exact Hm.
    rewrite IH; [lia|].
    split; [apply Z.div_pos; lia|apply Z.div_lt_upper_bound; lia].
Qed.

(** X1. For every length [k], [kmer_index] and [kmer_of_index] are
    inverse to each other between the strings of length [k] over the
    alphabet and the integers of [[0, 4^k)]: every index is reached,
    by exactly the string that decoding gives. *)
Theorem kmer_index_decode (k : nat) :
  (forall idx : Z, 0 <= idx < 4 ^ Z.of_nat k ->
     length (kmer_of_index k idx) = k /\
     nucleotides (kmer_of_index k idx) /\
     kmer_index (kmer_of_index k idx) = Ok idx) /\
  (forall (kmer : str) (idx : Z), length kmer = k -> nucleotides kmer ->
     kmer_index kmer = Ok idx ->
     0 <= idx < 4 ^ Z.of_nat k /\ kmer_of_index k idx = kmer).
Proof.
  split.
  - intros idx Hidx. split; [apply kmer_of_index_length|].
    split; [apply kmer_of_index_nucleotides|].
    rewrite kmer_index_nucleotides by apply kmer_of_index_nucleotides.
    rewrite kmer_of_index_sigma by exact Hidx. reflexivity.
  - intros kmer idx Hlen Hn Hidx.
    rewrite (kmer_index_nucleotides kmer Hn) in Hidx. injection Hidx as <-.
    pose proof (sigma_bounds kmer Hn) as Hb. rewrite Hlen in Hb.
    split; [exact Hb|].
    apply sigma_inj.
    + apply kmer_of_index_nucleotides.
    + exact Hn.
    + rewrite kmer_of_index_length. congruence.
    + apply kmer_of_index_sigma. exact Hb.
Qed.

Lemma kmer_index_decode_witness :
  kmer_index (kmer_of_index 7 2289) = Ok 2289 /\
  kmer_of_index 7 2289 = py "GATTACA".
Proof.
  split.
  - apply (proj1 (kmer_index_decode 7) 2289). lia.
  - apply (proj2 (kmer_index_decode 7) (py "GATTACA") 2289).
    + reflexivity.
    + repeat constructor.
    + reflexivity.
Defined.

Lemma sigma_app (a b : list Z) :
  sigma 0 (a ++ b) = sigma 0 a + 4 ^ Z.of_nat (length a) * sigma 0 b.
Proof.
  induction a as [|c a IH].
  - cbn [app length]. change (4 ^ Z.of_nat 0) with 1. cbn [sigma]. lia.
  - cbn [app length]. rewrite !sigma_cons, IH.
    rewrite Nat2Z.inj_succ, Z.pow_succ_r by lia. lia.
Qed.

(** X2. The index of a concatenation: the index of the first string
    plus [4 ^ len(first)] times the index of the second. *)
Theorem kmer_index_app (a b : str) :
  nucleotides a -> nucleotides b ->
  exists ia ib,
    kmer_index a = Ok ia /\ kmer_index b = Ok ib /\
    kmer_index (a ++ b) = Ok (ia + 4 ^ Z.of_nat (length a) * ib).
Proof.
  intros Ha Hb. eexists. eexists.
  split; [apply kmer_index_nucleotides, Ha|].
  split; [apply kmer_index_nucleotides, Hb|].
  rewrite kmer_index_nucleotides by (apply Forall_app; split; assumption).
  rewrite List.map_app, sigma_app, length_map. reflexivity.
Qed.

Lemma kmer_index_app_witness :
  exists ia ib,
    kmer_index (py "GAT") = Ok ia /\ kmer_index (py "TACA") = Ok ib /\
    kmer_index (py "GAT" ++ py "TACA") = Ok (ia + 4 ^ Z.of_nat (length (py "GAT")) * ib).
Proof.
  apply (kmer_index_app (py "GAT") (py "TACA")); repeat constructor.
Defined.

Lemma kmer_index_loop_pad (n : nat) (pos index : Z) :
  kmer_index_loop (List.repeat "A"%char n) pos index = Ok index.
Proof.
  revert pos index. induction n as [|n IH]; intros pos index; [reflexivity|].
  cbn [List.repeat kmer_index_loop]. change (dict_get NUCS "A"%char) with (Some 0).
  cbv beta iota. rewrite Z.shiftl_0_l, Z.add_0_r. apply IH.
Qed.

(** X3. Appending any number of "A" to a string does not change what
    [kmer_index] does with it: the same index, or the same
    [KeyError]. The index alone does not tell the length of the
    k-mer. *)
Theorem kmer_index_trailing_A (kmer : str) (n : nat) :
  kmer_index (kmer ++ List.repeat "A"%char n) = kmer_index kmer.
Proof.
  unfold kmer_index. generalize 0 at 1 3 as pos. generalize 0 as index.
  induction kmer as [|nuc rest IH]; intros index pos.
  - cbn [app]. apply kmer_index_loop_pad.
  - cbn [app kmer_index_loop]. destruct (dict_get NUCS nuc); [apply IH|reflexivity].
Qed.

Lemma kmer_index_raises_at (pre : str) (c : ascii) (rest : str) :
  nucleotides pre -> is_nuc c = false ->
  kmer_index (pre ++ c :: rest) = Raise (KeyError [c]).
Proof.
  intros Hpre Hc. unfold kmer_index. generalize 0 at 1 as pos. generalize 0 as index.
  induction Hpre as [|nuc pre Hnuc Hpre IH]; intros index pos.
  - cbn [app kmer_index_loop]. rewrite (NUCS_missing c Hc). reflexivity.
  - cbn [app kmer_index_loop]. destruct (NUCS_nuc nuc Hnuc) as [-> _]. apply IH.
Qed.

(** X4. On a string whose first character outside the alphabet is
    [c], [kmer_index] raises [KeyError] with key [c], whatever
    follows [c]. *)
Theorem kmer_index_first_invalid (pre : str) (c : ascii) (rest : str) :
  nucleotides pre -> is_nuc c = false ->
  kmer_index (pre ++ c :: rest) = Raise (KeyError [c]).
Proof. exact (kmer_index_raises_at pre c rest). Qed.

Lemma kmer_index_first_invalid_witness :
  kmer_index (py "AC" ++ "n"%char :: py "GxT") = Raise (KeyError ["n"%char]).
Proof.
  apply (kmer_index_first_invalid (py "AC") "n"%char (py "GxT")).
  - repeat constructor.
  - reflexivity.
Defined.

(** ** Region featurizer: occurrence counts, first error, short input *)

Lemma hits_occurrences (kmer : str) (ws : list str) :
  nucleotides kmer ->
  (forall w, In w ws -> nucleotides w /\ length w = length kmer) ->
  hits (sigma 0 (List.map code kmer)) ws = occurrences kmer ws.
Proof.
  intros Hkmer. induction ws as [|w ws IH]; intros Hws; [reflexivity|].
  destruct (Hws w) as [Hw Hlen]; [left; reflexivity|].
  rewrite hits_cons by exact Hw.
  rewrite IH by (intros w' Hw'; apply Hws; right; exact Hw').
  unfold occurrences.
  destruct (List.list_eq_dec ascii_dec w kmer) as [Heq|Hne].
  - rewrite (count_occ_cons_eq _ ws Heq). subst w. rewrite Z.eqb_refl. lia.
  - rewrite (count_occ_cons_neq _ ws Hne).
    destruct (sigma 0 (List.map code w) =? sigma 0 (List.map code kmer)) eqn:E; [|lia].
    exfalso. apply Hne. apply sigma_inj; [assumption..|lia].
Qed.

(** X5. On a sequence over the alphabet and for every [k >= 0] for
    which [np.zeros(4 ** k)] can be allocated, the raw featurization
    has [4^k] entries; the entry at the index of a k-mer is the number
    of windows of the sequence equal to that k-mer; and the entries
    add up to the number of windows, [max(0, L - k + 1)]. *)
Theorem kfeat_counts_occurrences (mem : Z) (seq : str) (k : Z) :
  nucleotides seq -> 0 <= k -> room mem k ->
  exists counts : list Z,
    kfeat mem seq k false = Ok (List.map to_float counts) /\
    Z.of_nat (length counts) = 4 ^ k /\
    sumZ counts = Z.max 0 (Z.of_nat (length seq) - k + 1) /\
    forall (kmer : str) (idx : Z),
      nucleotides kmer -> Z.of_nat (length kmer) = k ->
      kmer_index kmer = Ok idx ->
      counts !! Z.to_nat idx = Some (occurrences kmer (windows seq k)).
Proof.
  intros Hseq Hk Hroom.
  destruct (kfeat_counts_spec mem seq k Hseq Hk Hroom) as (counts & Hc & Hlen & Hsum & Hent).
  exists counts. unfold kfeat. rewrite Hc. cbn [bind].
  split; [reflexivity|]. split; [exact Hlen|]. split; [exact Hsum|].
  intros kmer idx Hkmer Hklen Hidx.
  rewrite (kmer_index_nucleotides kmer Hkmer) in Hidx. injection Hidx as <-.
  pose proof (sigma_bounds kmer Hkmer) as Hb. rewrite Hklen in Hb.
  rewrite Hent by lia. rewrite Z2Nat.id by lia. f_equal.
  apply hits_occurrences; [exact Hkmer|].
  intros w Hw. destruct (windows_spec seq k w Hk Hseq Hw) as [Hwn Hwl].
  split; [exact Hwn|lia].
Qed.

Lemma kfeat_counts_occurrences_witness :
  exists counts : list Z,
    kfeat example_mem (py "ACACACG") 2 false = Ok (List.map to_float counts) /\
    Z.of_nat (length counts) = 4 ^ 2 /\
    sumZ counts = Z.max 0 (Z.of_nat (length (py "ACACACG")) - 2 + 1) /\
    forall (kmer : str) (idx : Z),
      nucleotides kmer -> Z.of_nat (length kmer) = 2 ->
      kmer_index kmer = Ok idx ->
      counts !! Z.to_nat idx = Some (occurrences kmer (windows (py "ACACACG") 2)).
Proof.
  apply (kfeat_counts_occurrences example_mem (py "ACACACG") 2).
  - repeat constructor.
  - lia.
  - apply example_room. lia.
Defined.

Lemma count_loop_app (seq : str) (k : Z) (l1 l2 : list Z) (ret : list Z) :
  count_loop seq k (l1 ++ l2) ret =
    (ret' <- count_loop seq k l1 ret ;; count_loop seq k l2 ret').
Proof.
  revert ret. induction l1 as [|i l1 IH]; intros ret; [reflexivity|].
  cbn [app count_loop].
  destruct (kmer_index (slice seq i (i + k))) as [idx|e]; cbn [bind]; [|reflexivity].
  destruct (array_incr ret idx) as [ret1|e]; cbn [bind]; [|reflexivity].
  apply IH.
Qed.

(** The counting loop over windows that are all k-mers over the
    alphabet does not raise. *)
Lemma count_loop_valid_windows (seq : str) (k : Z) (starts : list Z) (ret : list Z) :
  (forall i, In i starts ->
     nucleotides (slice seq i (i + k)) /\
     Z.of_nat (length (slice seq i (i + k))) = k) ->
  Z.of_nat (length ret) = 4 ^ k ->
  exists ret', count_loop seq k starts ret = Ok ret' /\ length ret' = length ret.
Proof.
  revert ret. induction starts as [|i rest IH]; intros ret Hw Hlen.
  - exists ret. split; reflexivity.
  - destruct (Hw i) as [Hn Hl]; [left; reflexivity|].
    pose proof (sigma_bounds _ Hn) as Hb. rewrite Hl in Hb.
    cbn [count_loop]. rewrite (kmer_index_nucleotides _ Hn). cbn [bind].
    unfold array_incr.
    destruct (0 <=? sigma 0 (List.map code (slice seq i (i + k)))) eqn:H0; [|lia].
    destruct (sigma 0 (List.map code (slice seq i (i + k))) <? Z.of_nat (length ret)) eqn:H1;
      [|lia].
    cbn [andb bind].
    destruct (IH (alter Z.succ (Z.to_nat (sigma 0 (List.map code (slice seq i (i + k))))) ret))
      as (ret' & Hloop & Hl').
    { intros j Hj. apply Hw. right. exact Hj. }
    { rewrite length_alter. exact Hlen. }
    exists ret'. split; [exact Hloop|]. rewrite Hl'. apply length_alter.
Qed.

Lemma range_split (i n : Z) :
  0 <= i < n -> exists rest, range n = range i ++ i :: rest.
Proof.
  intros H. unfold range.
  replace (Z.to_nat n) with (Z.to_nat i + S (Z.to_nat (n - i - 1)))%nat by lia.
  rewrite seq_app, List.map_app. cbn [seq List.map Nat.add].
  rewrite Z2Nat.id by lia. eexists. reflexivity.
Qed.

Lemma slice_app_l (pre post : str) (i k : Z) :
  0 <= i -> 0 <= k -> i + k <= Z.of_nat (length pre) ->
  slice (pre ++ post) i (i + k) = slice pre i (i + k).
Proof.
  intros Hi Hk Hlen. unfold slice.
  rewrite skipn_app, firstn_app, length_skipn.
  replace (Z.to_nat i - length pre)%nat with O by lia. cbn [skipn].
  replace (Z.to_nat (i + k - i) - (length pre - Z.to_nat i))%nat with O by lia.
  cbn [firstn]. apply app_nil_r.
Qed.

Lemma slice_across (pre : str) (c : ascii) (post : str) (i k : Z) :
  0 <= i <= Z.of_nat (length pre) -> Z.of_nat (length pre) < i + k ->
  exists rest, slice (pre ++ c :: post) i (i + k) = skipn (Z.to_nat i) pre ++ c :: rest.
Proof.
  intros Hi Hk. unfold slice.
  rewrite skipn_app, firstn_app, length_skipn.
  replace (Z.to_nat i - length pre)%nat with O by lia. cbn [skipn].
  rewrite firstn_all2 by (rewrite length_skipn; lia).
  destruct (Z.to_nat (i + k - i) - (length pre - Z.to_nat i))%nat as [|m] eqn:E; [lia|].
  cbn [firstn]. eexists. reflexivity.
Qed.

(** X6. When a sequence has a character outside the alphabet,
    [1 <= k <= len(seq)] and [np.zeros(4 ** k)] can be allocated,
    [kfeat] raises [KeyError] with the first such character of the
    sequence as key, with either value of [normalize]. *)
Theorem kfeat_first_invalid (mem : Z) (pre : str) (c : ascii) (post : str) (k : Z)
  (normalize : bool) :
  nucleotides pre -> is_nuc c = false ->
  1 <= k <= Z.of_nat (length (pre ++ c :: post)) -> room mem k ->
  kfeat mem (pre ++ c :: post) k normalize = Raise (KeyError [c]).
Proof.
  intros Hpre Hc Hk Hroom. rewrite length_app in Hk. cbn [length] in Hk.
  unfold kfeat, kfeat_counts. destruct (k <? 0) eqn:E; [lia|].
  rewrite (np_zeros_room mem k Hroom). cbn [bind].
  set (seq := pre ++ c :: post).
  set (i0 := Z.max 0 (Z.of_nat (length pre) - k + 1)).
  destruct (range_split i0 (Z.of_nat (length seq) - k + 1)) as (rest & ->).
  { unfold seq. rewrite length_app. cbn [length]. lia. }
  rewrite count_loop_app.
  destruct (count_loop_valid_windows seq k (range i0)
              (replicate (Z.to_nat (4 ^ k)) 0)) as (ret' & -> & _).
  { intros i Hi. apply range_spec in Hi. unfold seq.
    rewrite slice_app_l by lia.
    split; [apply slice_nucleotides, Hpre|].
    rewrite slice_length by lia. lia. }
  { rewrite length_replicate.
    assert (0 < 4 ^ k) by (apply Z.pow_pos_nonneg; lia). lia. }
  cbn [bind count_loop].
  destruct (slice_across pre c post i0 k) as (tl & Hslice); [lia..|].
  unfold seq. rewrite Hslice.
  rewrite kmer_index_raises_at; [reflexivity| |exact Hc].
  apply Forall_drop, Hpre.
Qed.

Lemma kfeat_first_invalid_witness :
  kfeat example_mem (py "ACGTAC" ++ "N"%char :: py "GTnA") 3 true = Raise (KeyError ["N"%char]).
Proof.
  apply (kfeat_first_invalid example_mem (py "ACGTAC") "N"%char (py "GTnA") 3 true).
  - repeat constructor.
  - reflexivity.
  - cbn. lia.
  - apply example_room. lia.
Defined.

(** X7. When the sequence is shorter than [k] there is no window:
    [kfeat] without normalization returns [4^k] zeros, when
    [np.zeros(4 ** k)] can be allocated, and looks at no character, so
    it does not raise even on characters outside the alphabet. *)
Theorem kfeat_short_sequence (mem : Z) (seq : str) (k : Z) :
  Z.of_nat (length seq) < k -> room mem k ->
  kfeat mem seq k false = Ok (replicate (Z.to_nat (4 ^ k)) 0%float).
Proof.
  intros Hk Hroom. unfold kfeat, kfeat_counts. destruct (k <? 0) eqn:E; [lia|].
  rewrite (np_zeros_room mem k Hroom). cbn [bind].
  unfold range. replace (Z.to_nat (Z.of_nat (length seq) - k + 1)) with O by lia.
  cbn [List.seq List.map count_loop bind]. f_equal.
  induction (Z.to_nat (4 ^ k)) as [|n IH]; [reflexivity|].
  cbn [replicate List.map]. rewrite IH. reflexivity.
Qed.

Lemma kfeat_short_sequence_witness :
  kfeat example_mem (py "NN") 3 false = Ok (replicate 64 0%float).
Proof.
  apply (kfeat_short_sequence example_mem (py "NN") 3).
  - cbn. lia.
  - apply example_room. lia.
Defined.

(** ** Sequence resolver: gaps and regions without windows *)

Lemma NUCFILT_sub_app (a b : str) :
  NUCFILT_sub (a ++ b) = NUCFILT_sub a ++ NUCFILT_sub b.
Proof. unfold NUCFILT_sub. apply List.filter_app. Qed.

Lemma NUCFILT_sub_gap (gap : str) :
  (forall c, In c gap -> is_nuc c = false) -> NUCFILT_sub gap = [].
Proof.
  intros H. rewrite NUCFILT_sub_filter.
  induction gap as [|c gap IH]; [reflexivity|].
  cbn [List.filter]. rewrite (H c) by (left; reflexivity).
  apply IH. intros c' Hc'. apply H. right. exact Hc'.
Qed.

(** X8. Characters outside the alphabet do not separate what is
    around them: a fetched sequence with a run of such characters in
    it gives the same features as the sequence with the run cut out,
    so k-mers that span the run are counted. *)
Theorem get_features_spans_gaps (mem : Z) (fetch fetch' : accessor) (reg reg' : region)
  (ref_fn : str) (a gap b : str) (k : Z) (normalize : bool) :
  (forall c, In c gap -> is_nuc c = false) ->
  fetch ref_fn (fst (fst reg)) (snd (fst reg)) (snd reg) = Ok (a ++ gap ++ b) ->
  fetch' ref_fn (fst (fst reg')) (snd (fst reg')) (snd reg') = Ok (a ++ b) ->
  get_features fetch mem reg ref_fn k normalize =
    get_features fetch' mem reg' ref_fn k normalize.
Proof.
  intros Hgap Hf Hf'. destruct reg as [[chrom start] end_], reg' as [[chrom' start'] end'].
  cbn [fst snd] in Hf, Hf'.
  rewrite (get_features_fetched mem _ _ _ _ _ _ _ _ Hf), (get_features_fetched mem _ _ _ _ _ _ _ _ Hf').
  rewrite !NUCFILT_sub_app, (NUCFILT_sub_gap gap Hgap). reflexivity.
Qed.

Lemma get_features_spans_gaps_witness :
  get_features (fun _ _ _ _ => Ok (py "AC" ++ py "NNnn" ++ py "GT")) example_mem
    (py "chr1", 0, 8) (py "ref.fa") 2 false =
  get_features (fun _ _ _ _ => Ok (py "AC" ++ py "GT")) example_mem (py "chr1", 0, 4)
    (py "ref.fa") 2 false.
Proof.
  apply (get_features_spans_gaps example_mem _ _ _ _ _ (py "AC") (py "NNnn") (py "GT")).
  - intros c [<- | [<- | [<- | [<- | []]]]]; reflexivity.
  - reflexivity.
  - reflexivity.
Defined.

Lemma kfeat_zero_windows (mem : Z) (seq : str) (k : Z) :
  0 <= k -> room mem k -> Z.of_nat (length seq) - k + 1 = 0 ->
  kfeat mem seq k true = Ok (replicate (Z.to_nat (4 ^ k)) PrimFloat.nan).
Proof.
  intros Hk Hroom Hn. unfold kfeat, kfeat_counts. destruct (k <? 0) eqn:E; [lia|].
  rewrite (np_zeros_room mem k Hroom). cbn [bind].
  rewrite Hn. change (range 0) with (@nil Z). cbn [count_loop bind].
  f_equal. unfold np_divide.
  induction (Z.to_nat (4 ^ k)) as [|n IH]; [reflexivity|].
  cbn [replicate List.map]. rewrite IH. reflexivity.
Qed.

(** The rows of the matrix when the reference resolves every region. *)
Lemma regions_to_kmers_resolved (mem : Z) (fetch : accessor) (sched : list nat)
  (regions : list region) (reference : str) (k nproc : Z) :
  0 <= k -> room mem k -> 1 <= nproc -> Pool.schedule nproc regions sched ->
  (forall chrom start end_, In (chrom, start, end_) regions ->
     exists raw, fetch reference chrom start end_ = Ok raw) ->
  exists rows,
    Forall2 (fun reg row => get_features fetch mem reg reference k true = Ok row)
      regions rows /\
    regions_to_kmers fetch mem sched regions reference k nproc =
      Ok match rows with
         | [] => [[]]
         | _ => rows
         end.
Proof.
  intros Hk Hroom Hn Hsched Hfetch.
  pose proof (regions_to_kmers_seq mem fetch sched regions reference k nproc Hn Hsched) as S.
  destruct (map_result_total (fun reg => get_features fetch mem reg reference k true)
              (fun row => length row = Z.to_nat (4 ^ k)) regions)
    as (rows & Hrows & HF & HP).
  { intros [[chrom start] end_] Hin. destruct (Hfetch chrom start end_ Hin) as (raw & Hraw).
    rewrite (get_features_fetched mem _ _ _ _ _ raw) by exact Hraw.
    destruct (kfeat_total mem (NUCFILT_sub raw) k true (NUCFILT_sub_nucleotides raw) Hk Hroom)
      as (v & Hv & Hl).
    exists v. split; [exact Hv|lia]. }
  rewrite Hrows in S. rewrite (np_vstack1_uniform rows _ HP) in S.
  exists rows. split; [exact HF|exact S].
Qed.

(** X9. A region whose fetched sequence has exactly [k - 1]
    characters of the alphabet (for k=1: none, as in a region of N
    or of lower-case bases) does not make [regions_to_kmers] fail:
    when the reference resolves every region and [np.zeros(4 ** k)]
    can be allocated, the matrix is returned, and the row of that
    region is [4^k] times [nan]. *)
Theorem regions_to_kmers_nan_row (mem : Z) (fetch : accessor) (sched : list nat)
  (regions : list region) (reference : str) (k nproc : Z)
  (i : nat) (chrom : str) (start end_ : Z) (raw : str) :
  0 <= k -> room mem k -> 1 <= nproc -> Pool.schedule nproc regions sched ->
  (forall chrom start end_, In (chrom, start, end_) regions ->
     exists raw, fetch reference chrom start end_ = Ok raw) ->
  regions !! i = Some (chrom, start, end_) ->
  fetch reference chrom start end_ = Ok raw ->
  Z.of_nat (length (List.filter is_nuc raw)) = k - 1 ->
  exists feats,
    regions_to_kmers fetch mem sched regions reference k nproc = Ok feats /\
    feats !! i = Some (replicate (Z.to_nat (4 ^ k)) PrimFloat.nan).
Proof.
  intros Hk Hroom Hn Hsched Hfetch Hi Hraw Hlen.
  destruct (regions_to_kmers_resolved mem fetch sched regions reference k nproc
              Hk Hroom Hn Hsched Hfetch) as (rows & HF & Hres).
  eexists. split; [exact Hres|].
  destruct (Forall2_lookup_l _ _ _ _ _ HF Hi) as (row & Hrow & Hget).
  rewrite (get_features_fetched mem _ _ _ _ _ raw) in Hget by exact Hraw.
  rewrite kfeat_zero_windows in Hget.
  - injection Hget as <-. destruct rows; [discriminate|exact Hrow].
  - exact Hk.
  - exact Hroom.
  - rewrite NUCFILT_sub_filter. lia.
Qed.

Lemma regions_to_kmers_nan_row_witness :
  exists feats,
    regions_to_kmers (fun _ _ start _ => if start =? 0 then Ok (py "ACGT") else Ok (py "NNacgtNN"))
      example_mem [1; 0]%nat [(py "chr1", 0, 4); (py "chr1", 10, 18)] (py "ref.fa") 1 2
      = Ok feats /\
    feats !! 1%nat = Some (replicate (Z.to_nat (4 ^ 1)) PrimFloat.nan).
Proof.
  apply (regions_to_kmers_nan_row example_mem _ _ _ _ 1 2 1%nat (py "chr1") 10 18 (py "NNacgtNN")).
  - lia.
  - apply example_room. lia.
  - lia.
  - apply Permutation_sym. exact (Permutation_rev [0; 1]%nat).
  - intros chrom start end_ _. destruct (start =? 0); eexists; reflexivity.
  - reflexivity.
  - reflexivity.
  - reflexivity.
Defined.

(** ** Parallel orchestrator: empty and concatenated batches *)

(** X10. For an empty list of regions [regions_to_kmers] returns a
    matrix of one row and no column, not a matrix without rows: the
    number of rows equals the number of regions only for a non-empty
    list. *)
Theorem regions_to_kmers_empty (mem : Z) (fetch : accessor) (sched : list nat)
  (reference : str) (k nproc : Z) :
  1 <= nproc -> Pool.schedule nproc (@nil region) sched ->
  regions_to_kmers fetch mem sched [] reference k nproc = Ok [[]].
Proof.
  intros Hn Hsched.
  pose proof (regions_to_kmers_seq mem fetch sched [] reference k nproc Hn Hsched) as S.
  exact S.
Qed.

Lemma regions_to_kmers_empty_witness :
  regions_to_kmers example_reference example_mem [] [] (py "ref.fa") 3 4 = Ok [[]].
Proof.
  apply (regions_to_kmers_empty example_mem example_reference [] (py "ref.fa") 3 4).
  - lia.
  - apply Permutation_refl.
Defined.

Lemma Forall2_result_functional {A B} (f : A -> result B) (xs : list A) (ys ys' : list B) :
  Forall2 (fun x y => f x = Ok y) xs ys ->
  Forall2 (fun x y => f x = Ok y) xs ys' -> ys = ys'.
Proof.
  intros H. revert ys'. induction H as [|x y xs ys Hxy _ IH]; intros ys' H'.
  - inversion H'. reflexivity.
  - inversion H' as [|? y' ? ys'' Hxy' Hrest]; subst.
    f_equal; [congruence|apply IH; exact Hrest].
Qed.

(** X11. Featurizing two non-empty batches one after the other and
    stacking the matrices gives the matrix of the concatenated
    batch, for any numbers of workers and orders of delivery, when
    the reference resolves every region and [np.zeros(4 ** k)] can be
    allocated. *)
Theorem regions_to_kmers_app (mem : Z) (fetch : accessor) (regions1 regions2 : list region)
  (reference : str) (k nproc1 nproc2 nproc : Z) (sched1 sched2 sched : list nat) :
  0 <= k -> room mem k -> 1 <= nproc1 -> 1 <= nproc2 -> 1 <= nproc ->
  regions1 <> [] -> regions2 <> [] ->
  Pool.schedule nproc1 regions1 sched1 ->
  Pool.schedule nproc2 regions2 sched2 ->
  Pool.schedule nproc (regions1 ++ regions2) sched ->
  (forall chrom start end_, In (chrom, start, end_) (regions1 ++ regions2) ->
     exists raw, fetch reference chrom start end_ = Ok raw) ->
  exists feats1 feats2,
    regions_to_kmers fetch mem sched1 regions1 reference k nproc1 = Ok feats1 /\
    regions_to_kmers fetch mem sched2 regions2 reference k nproc2 = Ok feats2 /\
    regions_to_kmers fetch mem sched (regions1 ++ regions2) reference k nproc
      = Ok (feats1 ++ feats2).
Proof.
  intros Hk Hroom Hn1 Hn2 Hn Hne1 Hne2 Hs1 Hs2 Hs Hfetch.
  destruct (regions_to_kmers_resolved mem fetch sched1 regions1 reference k nproc1
              Hk Hroom Hn1 Hs1) as (rows1 & HF1 & Hres1).
  { intros c s e Hin. apply Hfetch. apply in_or_app. left. exact Hin. }
  destruct (regions_to_kmers_resolved mem fetch sched2 regions2 reference k nproc2
              Hk Hroom Hn2 Hs2) as (rows2 & HF2 & Hres2).
  { intros c s e Hin. apply Hfetch. apply in_or_app. right. exact Hin. }
  destruct (regions_to_kmers_resolved mem fetch sched (regions1 ++ regions2) reference k nproc
              Hk Hroom Hn Hs Hfetch) as (rows & HF & Hres).
  assert (Hrows : rows = rows1 ++ rows2).
  { eapply Forall2_result_functional; [exact HF|]. apply Forall2_app; assumption. }
  destruct rows1 as [|r1 rows1]; [inversion HF1; congruence|].
  destruct rows2 as [|r2 rows2]; [inversion HF2; congruence|].
  subst rows. exists (r1 :: rows1), (r2 :: rows2).
  split; [exact Hres1|]. split; [exact Hres2|exact Hres].
Qed.

Lemma regions_to_kmers_app_witness :
  exists feats1 feats2,
    regions_to_kmers example_reference example_mem [1; 0]%nat example_regions (py "ref.fa") 2 1 = Ok feats1 /\
    regions_to_kmers example_reference example_mem [0]%nat [(py "chr1", 0, 10)] (py "ref.fa") 2 3 = Ok feats2 /\
    regions_to_kmers example_reference example_mem [2; 1; 0]%nat
      (example_regions ++ [(py "chr1", 0, 10)]) (py "ref.fa") 2 2 = Ok (feats1 ++ feats2).
Proof.
  apply (regions_to_kmers_app example_mem example_reference example_regions [(py "chr1", 0, 10)]
           (py "ref.fa") 2 1 3 2 [1; 0]%nat [0]%nat [2; 1; 0]%nat).
  - lia.
  - apply example_room. lia.
  - lia.
  - lia.
  - lia.
  - discriminate.
  - discriminate.
  - apply Permutation_sym. exact (Permutation_rev [0; 1]%nat).
  - apply Permutation_refl.
  - apply Permutation_sym. exact (Permutation_rev [0; 1; 2]%nat).
  - intros chrom start end_ Hin. cbn in Hin.
    destruct Hin as [H | [H | [H | []]]]; injection H as <- <- <-; eexists; reflexivity.
Defined.

(** ** [kfeats]: when it returns, and what it ignores *)

Lemma map_result_ext {A B} (f g : A -> result B) (xs : list A) :
  (forall x, f x = g x) -> map_result f xs = map_result g xs.
Proof.
  intros H. induction xs as [|x xs IH]; [reflexivity|].
  cbn [map_result]. rewrite H, IH. reflexivity.
Qed.

Lemma map_result_raises_only {A B} (f : A -> result B) (e0 : exn) (xs : list A) :
  (forall x, In x xs -> f x = Raise e0 \/ exists y, f x = Ok y) ->
  (exists x, In x xs /\ f x = Raise e0) ->
  map_result f xs = Raise e0.
Proof.
  induction xs as [|x xs IH]; intros Hall (z & Hz & Hfz); [destruct Hz|].
  cbn [map_result]. destruct (Hall x) as [Hx | (y & Hx)]; [left; reflexivity| |].
  - rewrite Hx. reflexivity.
  - rewrite Hx. cbn [bind]. rewrite IH; [reflexivity| |].
    + intros x' Hx'. apply Hall. right. exact Hx'.
    + destruct Hz as [-> | Hz]; [congruence|]. exists z. split; assumption.
Qed.

Lemma np_array_empty_rows {A} (xs : list A) :
  np_array (List.map (fun _ => Stack []) xs) = Ok (Stack (List.map (fun _ => Stack []) xs)).
Proof.
  destruct xs as [|x xs]; [reflexivity|].
  cbn [List.map np_array].
  rewrite (proj2 (forallb_forall _ _)); [reflexivity|].
  intros r Hr. apply in_map_iff in Hr as (? & <- & _). reflexivity.
Qed.

(** X12. [kfeats] returns an array only when every sequence is the
    empty string, and then an array of one empty row per sequence;
    as soon as one sequence has a character it ends in
    [RecursionError], whatever the recursion limit. *)
Theorem kfeats_returns_only_on_empty (seqs : list str) (k : Z) (normalize : bool) :
  ((forall s, In s seqs -> s = []) ->
   forall depth, (2 <= depth)%nat ->
     kfeats depth (PList (List.map PStr seqs)) k normalize =
       Ok (Stack (List.map (fun _ => Stack []) seqs))) /\
  ((exists s, In s seqs /\ s <> []) ->
   forall depth,
     kfeats depth (PList (List.map PStr seqs)) k normalize = Raise RecursionError).
Proof.
  split.
  - intros Hall depth Hd. destruct depth as [|[|d]]; [lia..|].
    cbn [kfeats py_iter].
    rewrite (map_result_ok _ (fun _ => Stack []) (List.map PStr seqs)).
    + cbn [bind]. rewrite List.map_map. apply np_array_empty_rows.
    + intros x Hx. apply in_map_iff in Hx as (s & <- & Hs).
      rewrite (Hall s Hs). reflexivity.
  - intros (s & Hs & Hne) depth. destruct depth as [|d]; [reflexivity|].
    cbn [kfeats py_iter]. rewrite (map_result_raises_only _ RecursionError); [reflexivity| |].
    + intros x Hx. apply in_map_iff in Hx as (s' & <- & _).
      destruct s' as [|c s']; [|left; apply kfeats_str].
      destruct d as [|d]; [left; reflexivity|right; eexists; reflexivity].
    + exists (PStr s). split; [apply in_map; exact Hs|].
      destruct s as [|c s]; [congruence|apply kfeats_str].
Qed.

Lemma kfeats_returns_only_on_empty_witness :
  kfeats 2 (PList (List.map PStr [py ""; py ""])) 3 true =
    Ok (Stack (List.map (fun _ => Stack []) [py ""; py ""])) /\
  kfeats 1000 (PList (List.map PStr [py ""; py "A"; py ""])) 3 true = Raise RecursionError.
Proof.
  split.
  - apply (proj1 (kfeats_returns_only_on_empty [py ""; py ""] 3 true)).
    + intros s [<- | [<- | []]]; reflexivity.
    + lia.
  - apply (proj2 (kfeats_returns_only_on_empty [py ""; py "A"; py ""] 3 true)).
    exists (py "A"). split; [right; left; reflexivity|discriminate].
Defined.

(** X13. What [kfeats] does never depends on [k] or on [normalize]:
    [kfeat] is never reached. *)
Theorem kfeats_ignores_k_normalize (depth : nat) (seqs : pyseq) (k k' : Z)
  (normalize normalize' : bool) :
  kfeats depth seqs k normalize = kfeats depth seqs k' normalize'.
Proof.
  revert seqs. induction depth as [|d IH]; intros seqs; [reflexivity|].
  cbn [kfeats]. rewrite (map_result_ext _ (fun x => kfeats d x k' normalize')); [reflexivity|].
  intros x. apply IH.
Qed.

(** ** Region source: lines, fields and integers *)

Lemma rstrip_app (x y : str) :
  rstrip (x ++ y) = match rstrip y with
                    | [] => rstrip x
                    | y' => x ++ y'
                    end.
Proof.
  induction x as [|c x IH].
  - cbn [app rstrip]. destruct (rstrip y); reflexivity.
  - cbn [app rstrip]. rewrite IH. destruct (rstrip y) as [|c' y'].
    + reflexivity.
    + destruct x; reflexivity.
Qed.

Lemma rstrip_no_space (s : str) :
  Forall (fun c => py_isspace c = false) s -> rstrip s = s.
Proof.
  induction 1 as [|c s Hc _ IH]; [reflexivity|].
  cbn [rstrip]. rewrite IH, Hc. destruct s; reflexivity.
Qed.

Lemma rstrip_all_space (s : str) :
  Forall (fun c => py_isspace c = true) s -> rstrip s = [].
Proof.
  induction 1 as [|c s Hc _ IH]; [reflexivity|].
  cbn [rstrip]. rewrite IH, Hc. reflexivity.
Qed.

Lemma split_tab_field (w rest : str) :
  Forall (fun c => c <> tab) w ->
  split_tab (w ++ tab :: rest) = w :: split_tab rest.
Proof.
  induction 1 as [|c w Hc _ IH].
  - cbn [app split_tab]. rewrite Ascii.eqb_refl. reflexivity.
  - cbn [app split_tab]. rewrite (proj2 (Ascii.eqb_neq c tab) Hc), IH. reflexivity.
Qed.

Lemma split_tab_last (w : str) :
  Forall (fun c => c <> tab) w -> split_tab w = [w].
Proof.
  induction 1 as [|c w Hc _ IH]; [reflexivity|].
  cbn [split_tab]. rewrite (proj2 (Ascii.eqb_neq c tab) Hc), IH. reflexivity.
Qed.

Lemma no_space_no_tab (s : str) :
  Forall (fun c => py_isspace c = false) s -> Forall (fun c => c <> tab) s.
Proof.
  apply List.Forall_impl. intros c Hc ->. discriminate.
Qed.

Ltac norm_app :=
  repeat first [rewrite <- app_assoc | rewrite app_nil_r | progress cbn [app]].

Lemma region_of_line_three_fields (c0 : ascii) (chrom s e tail : str) (a b : Z) :
  py_isspace c0 = false ->
  Forall (fun c => c <> tab) chrom ->
  Forall (fun c => c <> tab) s ->
  e <> [] -> Forall (fun c => py_isspace c = false) e ->
  (Forall (fun c => py_isspace c = true) tail \/ exists more, tail = tab :: more) ->
  py_int s = Ok a -> py_int e = Ok b ->
  region_of_line ((c0 :: chrom) ++ tab :: s ++ tab :: e ++ tail) = Ok (c0 :: chrom, a, b).
Proof.
  intros Hc0 Hchrom Hs Hne He Htail Ha Hb.
  assert (Hc0t : c0 <> tab) by (intros ->; discriminate).
  unfold region_of_line, strip.
  cbn [app lstrip]. rewrite Hc0.
  assert (Hstrip : exists t', rstrip (c0 :: chrom ++ tab :: s ++ tab :: e ++ tail)
                              = (c0 :: chrom) ++ tab :: s ++ tab :: e ++ t' /\
                              (t' = [] \/ exists r, t' = tab :: r)).
  { replace (c0 :: chrom ++ tab :: s ++ tab :: e ++ tail)
      with (((c0 :: chrom) ++ tab :: s ++ [tab]) ++ e ++ tail)
      by (norm_app; reflexivity).
    rewrite rstrip_app, rstrip_app.
    pose proof (rstrip_no_space e He) as Hre.
    destruct e as [|e0 e1]; [congruence|].
    destruct (rstrip tail) as [|t0 t1] eqn:Ht.
    - rewrite Hre.
      exists []. split; [|left; reflexivity].
      norm_app. reflexivity.
    - exists (t0 :: t1). split.
      + norm_app. reflexivity.
      + right. destruct Htail as [Hsp | (more & ->)].
        * rewrite (rstrip_all_space tail Hsp) in Ht. discriminate.
        * cbn [rstrip] in Ht. destruct (rstrip more); [discriminate|].
          injection Ht as <- <-. eexists. reflexivity. }
  destruct Hstrip as (t' & -> & Ht').
  rewrite (split_tab_field (c0 :: chrom)) by (constructor; assumption).
  rewrite (split_tab_field s) by exact Hs.
  assert (Hdata : exists rest, split_tab (e ++ t') = e :: rest).
  { destruct Ht' as [-> | (r & ->)].
    - rewrite app_nil_r, (split_tab_last e (no_space_no_tab e He)). eexists. reflexivity.
    - rewrite (split_tab_field e _ (no_space_no_tab e He)). eexists. reflexivity. }
  destruct Hdata as (rest & ->). cbn [firstn].
  rewrite Ha, Hb. reflexivity.
Qed.

(** X14. A line [chrom TAB start TAB end], followed by white space
    only or by further tab-separated columns, yields the region of
    its first three fields: the chromosome as written and the two
    integers that [int()] reads, with no check that they are an
    interval. The chromosome name is not empty, its first character
    is not white space and it contains no tab (a line that starts
    with a tab loses it to [strip()], and its fields shift); the
    start field has no tab, and the end field is not empty and has no
    white space. *)
Theorem region_of_line_fields (c0 : ascii) (chrom s e tail : str) (a b : Z) :
  py_isspace c0 = false ->
  Forall (fun c => c <> tab) chrom ->
  Forall (fun c => c <> tab) s ->
  e <> [] -> Forall (fun c => py_isspace c = false) e ->
  (Forall (fun c => py_isspace c = true) tail \/ exists more, tail = tab :: more) ->
  py_int s = Ok a -> py_int e = Ok b ->
  region_of_line ((c0 :: chrom) ++ tab :: s ++ tab :: e ++ tail) = Ok (c0 :: chrom, a, b).
Proof. exact (region_of_line_three_fields c0 chrom s e tail a b). Qed.

Lemma region_of_line_fields_witness :
  region_of_line (py "chr1" ++ tab :: py " 20_000" ++ tab :: py "-7"
                  ++ tab :: py "name" ++ [tab; newline])
  = Ok (py "chr1", 20000, -7).
Proof.
  apply (region_of_line_fields "c"%char (py "hr1") (py " 20_000") (py "-7")
           (tab :: py "name" ++ [tab; newline]) 20000 (-7)).
  - reflexivity.
  - repeat constructor; discriminate.
  - repeat constructor; discriminate.
  - discriminate.
  - repeat constructor.
  - right. eexists. reflexivity.
  - reflexivity.
  - reflexivity.
Defined.

Lemma split_tab_length (s : str) :
  length (split_tab s) = S (count_occ ascii_dec s tab).
Proof.
  induction s as [|c s IH]; [reflexivity|].
  cbn [split_tab count_occ].
  destruct (ascii_dec c tab) as [-> | Hne].
  - rewrite Ascii.eqb_refl. cbn [length]. rewrite IH. reflexivity.
  - rewrite (proj2 (Ascii.eqb_neq c tab) Hne).
    destruct (split_tab s); [discriminate|]. exact IH.
Qed.

Lemma lstrip_tabs (s : str) :
  (count_occ ascii_dec (lstrip s) tab <= count_occ ascii_dec s tab)%nat.
Proof.
  induction s as [|c s IH]; [reflexivity|].
  cbn [lstrip]. destruct (py_isspace c); [|reflexivity].
  cbn [count_occ]. destruct (ascii_dec c tab); lia.
Qed.

Lemma rstrip_tabs (s : str) :
  (count_occ ascii_dec (rstrip s) tab <= count_occ ascii_dec s tab)%nat.
Proof.
  induction s as [|c s IH]; [reflexivity|].
  cbn [rstrip]. destruct (rstrip s) as [|c' s'].
  - destruct (py_isspace c); cbn [count_occ]; destruct (ascii_dec c tab); lia.
  - cbn [count_occ] in *. destruct (ascii_dec c tab); lia.
Qed.

(** X15. A line with fewer than two tabs has fewer than three
    fields and makes [iter_regions] fail with [ValueError]: an empty
    or blank line, a comment, a header or a space-separated line
    stops the whole run. *)
Theorem region_of_line_too_few_fields (line : str) :
  (count_occ ascii_dec line tab < 2)%nat ->
  region_of_line line = Raise ValueError.
Proof.
  intros H. unfold region_of_line.
  pose proof (split_tab_length (strip line)) as Hl.
  pose proof (rstrip_tabs (lstrip line)) as H1.
  pose proof (lstrip_tabs line) as H2. unfold strip in *.
  destruct (split_tab (rstrip (lstrip line))) as [|f1 [|f2 [|f3 fs]]];
    cbn [length] in Hl; try reflexivity; lia.
Qed.

Lemma region_of_line_too_few_fields_witness :
  region_of_line [newline] = Raise ValueError /\
  region_of_line (py "chr1 0 10" ++ [newline]) = Raise ValueError /\
  region_of_line (py "#chrom" ++ tab :: py "start end" ++ [newline]) = Raise ValueError.
Proof.
  split; [|split]; apply region_of_line_too_few_fields; vm_compute; lia.
Defined.

Lemma int_digits_raises (m : nat) :
  forall (s : str) (acc : Z) (n : nat) (e : exn),
    (length s <= m)%nat -> int_digits s acc n = Raise e -> e = ValueError.
Proof.
  induction m as [|m IH]; intros s acc n e Hlen H.
  - destruct s; [discriminate|cbn in Hlen; lia].
  - destruct s as [|c rest]; [discriminate|]. cbn [int_digits] in H. cbn [length] in Hlen.
    destruct (digit_of c) as [d|].
    + eapply (IH rest); [lia|exact H].
    + destruct (Ascii.eqb c "_").
      * destruct rest as [|c' rest']; [congruence|].
        destruct (digit_of c') as [d|]; [|congruence].
        eapply (IH rest'); [cbn [length] in Hlen; lia|exact H].
      * destruct (forallb int_space (c :: rest)); congruence.
Qed.

Lemma int_unsigned_raises (s : str) (e : exn) :
  int_unsigned s = Raise e -> e = ValueError.
Proof.
  unfold int_unsigned. destruct s as [|c rest]; [congruence|].
  destruct (digit_of c) as [d|]; [|congruence].
  destruct (int_digits rest d 1) as [r|e'] eqn:Hd; cbn [bind].
  - destruct (snd r <=? int_max_str_digits)%nat; congruence.
  - intros H. injection H as <-. apply (int_digits_raises (length rest) rest d 1%nat e'); [lia|exact Hd].
Qed.

Lemma py_int_raises (s : str) (e : exn) : py_int s = Raise e -> e = ValueError.
Proof.
  unfold py_int. destruct (dropwhile_int_space s) as [|c rest]; [congruence|].
  destruct (Ascii.eqb c "-").
  - destruct (int_unsigned rest) as [v|e'] eqn:Hu; cbn [bind]; [discriminate|].
    intros H. injection H as <-. exact (int_unsigned_raises rest e' Hu).
  - destruct (Ascii.eqb c "+"); apply int_unsigned_raises.
Qed.

Lemma region_of_line_raises (line : str) (e : exn) :
  region_of_line line = Raise e -> e = ValueError.
Proof.
  unfold region_of_line.
  destruct (firstn 3 (split_tab (strip line))) as [|f1 [|f2 [|f3 [|f4 fs]]]]; try congruence.
  destruct (py_int f2) as [a|e1] eqn:H2; cbn [bind].
  - destruct (py_int f3) as [b|e2] eqn:H3; cbn [bind]; [discriminate|].
    intros H. injection H as <-. exact (py_int_raises f3 e2 H3).
  - intros H. injection H as <-. exact (py_int_raises f2 e1 H2).
Qed.

(** X16. Once the file is open, [iter_regions] either yields one
    region per line, in the order of the lines, or fails as a whole
    with [ValueError] because of a line that cannot be read: no
    line is skipped, and no other exception comes out of the
    reading. *)
Theorem iter_regions_all_or_nothing (opt_gz_open : str -> result (list str))
  (fn : str) (lines : list str) :
  opt_gz_open fn = Ok lines ->
  (exists regions,
     iter_regions opt_gz_open fn = Ok regions /\
     Forall2 (fun line reg => region_of_line line = Ok reg) lines regions) \/
  (iter_regions opt_gz_open fn = Raise ValueError /\
   exists line, In line lines /\ region_of_line line = Raise ValueError).
Proof.
  intros Hopen. unfold iter_regions. rewrite Hopen. cbn [bind].
  destruct (map_result region_of_line lines) as [regions|e] eqn:Hm.
  - left. exists regions. split; [reflexivity|apply map_result_inv; exact Hm].
  - right. destruct (map_result_raise_inv region_of_line lines e Hm) as (line & Hin & Hl).
    pose proof (region_of_line_raises line e Hl) as ->.
    split; [reflexivity|]. exists line. split; assumption.
Qed.

Lemma iter_regions_all_or_nothing_witness :
  (exists regions,
     iter_regions (fun _ => Ok [py "chr1" ++ tab :: py "0" ++ tab :: py "10" ++ [newline];
                                [newline]]) (py "regions.bed") = Ok regions /\
     Forall2 (fun line reg => region_of_line line = Ok reg)
       [py "chr1" ++ tab :: py "0" ++ tab :: py "10" ++ [newline]; [newline]] regions) \/
  (iter_regions (fun _ => Ok [py "chr1" ++ tab :: py "0" ++ tab :: py "10" ++ [newline];
                              [newline]]) (py "regions.bed") = Raise ValueError /\
   exists line,
     In line [py "chr1" ++ tab :: py "0" ++ tab :: py "10" ++ [newline]; [newline]] /\
     region_of_line line = Raise ValueError).
Proof.
  apply (iter_regions_all_or_nothing
           (fun _ => Ok [py "chr1" ++ tab :: py "0" ++ tab :: py "10" ++ [newline]; [newline]])
           (py "regions.bed")).
  reflexivity.
Defined.

(** The digits that [str()] writes, read back by [int_digits]. *)
Lemma int_digits_uint_pos (d : Decimal.uint) :
  forall (acc : positive) (n : nat),
    int_digits (list_ascii_of_string (NilEmpty.string_of_uint d)) (Zpos acc) n =
      Ok (Zpos (Pos.of_uint_acc d acc),
          (n + length (list_ascii_of_string (NilEmpty.string_of_uint d)))%nat).
Proof.
  induction d as [|d IH|d IH|d IH|d IH|d IH|d IH|d IH|d IH|d IH|d IH]; intros acc n;
    cbn [NilEmpty.string_of_uint list_ascii_of_string int_digits Pos.of_uint_acc length];
    [f_equal; f_equal; lia|..];
    match goal with
    | |- context [digit_of ?c] =>
        let v := eval vm_compute in (digit_of c) in change (digit_of c) with v
    end;
    cbv beta iota;
    match goal with
    | |- int_digits _ ?x _ = Ok (Zpos (Pos.of_uint_acc _ ?y), _) =>
        replace x with (Zpos y) by lia
    end;
    rewrite IH; f_equal; f_equal; lia.
Qed.

Lemma int_digits_uint_zero (d : Decimal.uint) :
  forall n : nat,
    int_digits (list_ascii_of_string (NilEmpty.string_of_uint d)) 0 n =
      Ok (Z.of_N (Pos.of_uint d),
          (n + length (list_ascii_of_string (NilEmpty.string_of_uint d)))%nat).
Proof.
  induction d as [|d IH|d IH|d IH|d IH|d IH|d IH|d IH|d IH|d IH|d IH]; intros n;
    cbn [NilEmpty.string_of_uint list_ascii_of_string int_digits Pos.of_uint length];
    [f_equal; f_equal; lia|..];
    match goal with
    | |- context [digit_of ?c] =>
        let v := eval vm_compute in (digit_of c) in change (digit_of c) with v
    end;
    cbv beta iota;
    match goal with
    | |- context [0 * 10 + ?k] =>
        let v := eval vm_compute in (0 * 10 + k) in change (0 * 10 + k) with v
    end;
    first [rewrite IH | rewrite int_digits_uint_pos]; f_equal; f_equal; lia.
Qed.

Lemma int_unsigned_uint (d : Decimal.uint) :
  d <> Decimal.Nil ->
  (length (list_ascii_of_string (NilEmpty.string_of_uint d)) <= int_max_str_digits)%nat ->
  int_unsigned (list_ascii_of_string (NilEmpty.string_of_uint d)) =
    Ok (Z.of_N (Pos.of_uint d)).
Proof.
  intros Hne Hlen.
  destruct d as [|d|d|d|d|d|d|d|d|d|d]; [congruence|..];
    cbn [NilEmpty.string_of_uint list_ascii_of_string int_unsigned Pos.of_uint length] in *;
    match goal with
    | |- context [digit_of ?c] =>
        let v := eval vm_compute in (digit_of c) in change (digit_of c) with v
    end;
    cbv beta iota;
    first [rewrite int_digits_uint_zero | rewrite (int_digits_uint_pos d)];
    cbn [bind fst snd];
    (destruct (Nat.leb_spec (1 + length (list_ascii_of_string (NilEmpty.string_of_uint d)))
                 int_max_str_digits) as [_|Hgt]; [reflexivity|lia]).
Qed.

Lemma uint_chars (d : Decimal.uint) :
  Forall (fun c => py_isspace c = false /\ int_space c = false /\
                   Ascii.eqb c "-" = false /\ Ascii.eqb c "+" = false)
    (list_ascii_of_string (NilEmpty.string_of_uint d)).
Proof.
  induction d; cbn [NilEmpty.string_of_uint list_ascii_of_string];
    constructor; try assumption; repeat split; reflexivity.
Qed.

Lemma py_int_uint (d : Decimal.uint) :
  py_int (list_ascii_of_string (NilEmpty.string_of_uint d)) =
    int_unsigned (list_ascii_of_string (NilEmpty.string_of_uint d)).
Proof.
  pose proof (uint_chars d) as H. unfold py_int.
  destruct (list_ascii_of_string (NilEmpty.string_of_uint d)) as [|c rest]; [reflexivity|].
  inversion H as [|? ? (_ & Hs & Hm & Hp) _]; subst.
  cbn [dropwhile_int_space]. rewrite Hs, Hm, Hp. reflexivity.
Qed.

(** [int(str(n))] is [n], as long as [str(n)] is within the limit on
    the digits. *)
Lemma py_int_py_str (n : Z) :
  (length (py_str n) <= int_max_str_digits)%nat -> py_int (py_str n) = Ok n.
Proof.
  unfold py_str. destruct n as [|p|p]; cbn [Z.to_int NilZero.string_of_int].
  - intros _. reflexivity.
  - unfold NilZero.string_of_uint.
    pose proof (DecimalPos.Unsigned.to_uint_nonnil p) as Hne.
    destruct (Pos.to_uint p) as [|d|d|d|d|d|d|d|d|d|d] eqn:E; [congruence|..];
      intros Hlen; rewrite py_int_uint, int_unsigned_uint by (congruence || exact Hlen);
      rewrite <- E, DecimalPos.Unsigned.of_to; reflexivity.
  - unfold NilZero.string_of_uint.
    pose proof (DecimalPos.Unsigned.to_uint_nonnil p) as Hne.
    destruct (Pos.to_uint p) as [|d|d|d|d|d|d|d|d|d|d] eqn:E; [congruence|..];
      intros Hlen; cbn [list_ascii_of_string length] in Hlen;
      cbn [list_ascii_of_string]; unfold py_int;
      cbn [dropwhile_int_space];
      change (int_space "-") with false; change (Ascii.eqb "-" "-") with true;
      cbv beta iota;
      rewrite int_unsigned_uint by (congruence || lia);
      rewrite <- E, DecimalPos.Unsigned.of_to; reflexivity.
Qed.

Lemma py_str_no_space (n : Z) :
  py_str n <> [] /\ Forall (fun c => py_isspace c = false) (py_str n).
Proof.
  assert (Hu : forall d, d <> Decimal.Nil ->
            list_ascii_of_string (NilZero.string_of_uint d) <> [] /\
            Forall (fun c => py_isspace c = false)
              (list_ascii_of_string (NilZero.string_of_uint d))).
  { intros d Hd. unfold NilZero.string_of_uint.
    split.
    - destruct d; [congruence|..]; discriminate.
    - destruct d; [congruence|..];
        (eapply List.Forall_impl; [|apply uint_chars]; intros c Hc; apply Hc). }
  unfold py_str. destruct n as [|p|p]; cbn [Z.to_int NilZero.string_of_int].
  - split; [discriminate|repeat constructor].
  - apply Hu, DecimalPos.Unsigned.to_uint_nonnil.
  - cbn [list_ascii_of_string]. split; [discriminate|].
    constructor; [reflexivity|apply Hu, DecimalPos.Unsigned.to_uint_nonnil].
Qed.

(** X17. Writing a region as a line and reading it back: the line
    [chrom TAB str(start) TAB str(end) NEWLINE] yields
    [(chrom, start, end)], for any two integers written with at most
    4300 characters and any chromosome name that is not empty, has no
    tab and does not start with white space. *)
Theorem region_of_line_round_trip (c0 : ascii) (chrom : str) (start end_ : Z) :
  py_isspace c0 = false ->
  Forall (fun c => c <> tab) chrom ->
  (length (py_str start) <= int_max_str_digits)%nat ->
  (length (py_str end_) <= int_max_str_digits)%nat ->
  region_of_line ((c0 :: chrom) ++ tab :: py_str start ++ tab :: py_str end_ ++ [newline])
  = Ok (c0 :: chrom, start, end_).
Proof.
  intros Hc0 Hchrom Hs He.
  destruct (py_str_no_space start) as [_ Hss].
  destruct (py_str_no_space end_) as [Hne Hes].
  apply region_of_line_three_fields; try assumption.
  - apply no_space_no_tab, Hss.
  - left. repeat constructor.
  - apply py_int_py_str, Hs.
  - apply py_int_py_str, He.
Qed.

Lemma region_of_line_round_trip_witness :
  region_of_line (py "chrX" ++ tab :: py_str 155270560 ++ tab :: py_str (-1) ++ [newline])
  = Ok (py "chrX", 155270560, -1).
Proof.
  apply (region_of_line_round_trip "c"%char (py "hrX") 155270560 (-1)).
  - reflexivity.
  - repeat constructor; discriminate.
  - vm_compute. lia.
  - vm_compute. lia.
Defined.

(** ** Command line *)

(** X18. [kfeat_main] ends in [NameError] for every argument list:
    [parse_args] uses the name [argparse], which the module never
    binds, so no region file is read, nothing is featurized and no
    output is written. *)
Theorem kfeat_main_name_error (mem : Z) (parser : list str -> cli_result namespace)
  (opt_gz_open : str -> result (list str)) (fetch : accessor)
  (sched : list nat) (args : list str) :
  parse_args parser args = Crash (NameError "argparse") /\
  kfeat_main parser opt_gz_open fetch mem sched args = Crash (NameError "argparse").
Proof.
  assert (H : parse_args parser args = Crash (NameError "argparse")) by reflexivity.
  split; [exact H|]. unfold kfeat_main. rewrite H. reflexivity.
Qed.

(** ** Further compositions *)

(** X19. Among k-mers of one length the last character decides the
    order of the indices: a k-mer ending in a character of smaller
    code has the smaller index, whatever comes before. The order of
    the entries of a feature vector is therefore not the
    alphabetical order of the k-mers. *)
Theorem kmer_index_last_char_dominates (x y : str) (c1 c2 : ascii) :
  nucleotides x -> nucleotides y -> length x = length y ->
  is_nuc c1 = true -> is_nuc c2 = true -> code c1 < code c2 ->
  exists i1 i2,
    kmer_index (x ++ [c1]) = Ok i1 /\ kmer_index (y ++ [c2]) = Ok i2 /\ i1 < i2.
Proof.
  intros Hx Hy Hlen H1 H2 Hc.
  exists (sigma 0 (List.map code (x ++ [c1]))), (sigma 0 (List.map code (y ++ [c2]))).
  split; [apply kmer_index_nucleotides, Forall_app; split; [exact Hx|repeat constructor; exact H1]|].
  split; [apply kmer_index_nucleotides, Forall_app; split; [exact Hy|repeat constructor; exact H2]|].
  rewrite !List.map_app, !sigma_app, !length_map. cbn [List.map]. rewrite !sigma_cons.
  cbn [sigma]. rewrite Hlen.
  pose proof (sigma_bounds x Hx) as Bx. pose proof (sigma_bounds y Hy) as By.
  rewrite Hlen in Bx. nia.
Qed.

Lemma kmer_index_last_char_dominates_witness :
  exists i1 i2,
    kmer_index (py "TT" ++ ["A"%char]) = Ok i1 /\
    kmer_index (py "AA" ++ ["G"%char]) = Ok i2 /\ i1 < i2.
Proof.
  apply (kmer_index_last_char_dominates (py "TT") (py "AA") "A"%char "G"%char);
    try reflexivity; try (repeat constructor).
Defined.

(** X20. For a [k >= 0] for which [np.zeros(4 ** k)] can be allocated
    the only exceptions [get_features] raises are those of the
    reference: the fetched sequence is filtered before
    it is counted, so [kmer_index] never meets a character it does
    not know, and no [KeyError] or [IndexError] of the counting can
    come out. *)
Theorem get_features_raises_only_fetch (mem : Z) (fetch : accessor) (chrom : str)
  (start end_ : Z) (ref_fn : str) (k : Z) (normalize : bool) :
  0 <= k -> room mem k ->
  (forall raw, fetch ref_fn chrom start end_ = Ok raw ->
     exists v, get_features fetch mem (chrom, start, end_) ref_fn k normalize = Ok v /\
               Z.of_nat (length v) = 4 ^ k) /\
  (forall e, get_features fetch mem (chrom, start, end_) ref_fn k normalize = Raise e <->
             fetch ref_fn chrom start end_ = Raise e).
Proof.
  intros Hk Hroom. split.
  - intros raw Hraw. rewrite (get_features_fetched mem _ _ _ _ _ raw) by exact Hraw.
    apply kfeat_total; [apply NUCFILT_sub_nucleotides|exact Hk|exact Hroom].
  - intros e. apply get_features_raise; [exact Hk|exact Hroom].
Qed.

Lemma get_features_raises_only_fetch_witness :
  (forall raw, example_reference (py "ref.fa") (py "chr1") 0 10 = Ok raw ->
     exists v, get_features example_reference example_mem (py "chr1", 0, 10) (py "ref.fa") 2 true = Ok v /\
               Z.of_nat (length v) = 4 ^ 2) /\
  (forall e, get_features example_reference example_mem (py "chr1", 0, 10) (py "ref.fa") 2 true = Raise e <->
             example_reference (py "ref.fa") (py "chr1") 0 10 = Raise e).
Proof.
  apply (get_features_raises_only_fetch example_mem example_reference (py "chr1") 0 10
           (py "ref.fa") 2 true).
  - lia.
  - apply example_room. lia.
Defined.

(** X21. From a file to the matrix: when every line of a non-empty
    region file can be read, the reference resolves every region and
    [np.zeros(4 ** k)] can be allocated, [regions_to_kmers] over
    [iter_regions] returns a matrix with one row per line of the file,
    row [i] being the features of the region written on line [i]. *)
Theorem regions_file_to_matrix (mem : Z) (opt_gz_open : str -> result (list str))
  (fetch : accessor) (sched : list nat) (fn reference : str) (k nproc : Z)
  (lines : list str) (regions : list region) :
  0 <= k -> room mem k -> 1 <= nproc ->
  opt_gz_open fn = Ok lines -> lines <> [] ->
  Forall2 (fun line reg => region_of_line line = Ok reg) lines regions ->
  Pool.schedule nproc regions sched ->
  (forall chrom start end_, In (chrom, start, end_) regions ->
     exists raw, fetch reference chrom start end_ = Ok raw) ->
  exists feats,
    (m_reg <- iter_regions opt_gz_open fn ;;
     regions_to_kmers fetch mem sched m_reg reference k nproc) = Ok feats /\
    length feats = length lines /\
    forall (i : nat) (line : str), lines !! i = Some line ->
      exists reg row,
        region_of_line line = Ok reg /\
        feats !! i = Some row /\
        get_features fetch mem reg reference k true = Ok row.
Proof.
  intros Hk Hroom Hn Hopen Hne Hlines Hsched Hfetch.
  assert (Hiter : iter_regions opt_gz_open fn = Ok regions).
  { unfold iter_regions. rewrite Hopen. cbn [bind].
    clear Hopen Hne Hsched Hfetch.
    induction Hlines as [|line reg lines regions Hl _ IH]; [reflexivity|].
    cbn [map_result]. rewrite Hl, IH. reflexivity. }
  rewrite Hiter. cbn [bind].
  destruct (regions_to_kmers_resolved mem fetch sched regions reference k nproc
              Hk Hroom Hn Hsched Hfetch) as (rows & HF & Hres).
  pose proof (Forall2_length _ _ _ Hlines) as Hlen1.
  pose proof (Forall2_length _ _ _ HF) as Hlen2.
  destruct rows as [|r rows].
  { destruct lines; [congruence|]. destruct regions; cbn in *; lia. }
  exists (r :: rows). split; [exact Hres|]. split; [lia|].
  intros i line Hi.
  destruct (Forall2_lookup_l _ _ _ _ _ Hlines Hi) as (reg & Hreg & Hl).
  destruct (Forall2_lookup_l _ _ _ _ _ HF Hreg) as (row & Hrow & Hget).
  exists reg, row. repeat split; assumption.
Qed.

Lemma regions_file_to_matrix_witness :
  exists feats,
    (m_reg <- iter_regions
                (fun _ => Ok [py "chr1" ++ tab :: py "0" ++ tab :: py "10" ++ [newline];
                              py "chr1" ++ tab :: py "100" ++ tab :: py "105" ++ [newline]])
                (py "regions.bed") ;;
     regions_to_kmers example_reference example_mem [1; 0]%nat m_reg (py "ref.fa") 2 2) = Ok feats /\
    length feats =
      length [py "chr1" ++ tab :: py "0" ++ tab :: py "10" ++ [newline];
              py "chr1" ++ tab :: py "100" ++ tab :: py "105" ++ [newline]] /\
    forall (i : nat) (line : str),
      [py "chr1" ++ tab :: py "0" ++ tab :: py "10" ++ [newline];
       py "chr1" ++ tab :: py "100" ++ tab :: py "105" ++ [newline]] !! i = Some line ->
      exists reg row,
        region_of_line line = Ok reg /\
        feats !! i = Some row /\
        get_features example_reference example_mem reg (py "ref.fa") 2 true = Ok row.
Proof.
  apply (regions_file_to_matrix example_mem _ example_reference [1; 0]%nat (py "regions.bed")
           (py "ref.fa") 2 2 _ example_regions).
  - lia.
  - apply example_room. lia.
  - lia.
  - reflexivity.
  - discriminate.
  - repeat constructor.
  - apply Permutation_sym. exact (Permutation_rev [0; 1]%nat).
  - intros chrom start end_ Hin. cbn in Hin.
    destruct Hin as [H | [H | []]]; injection H as <- <- <-; eexists; reflexivity.
Defined.
